(** * The Browser Form of the weather fetcher (frontend/src/App.tsx)

    A shallow embedding of the React component [App]: its state, the
    memoised [coordsList], the asynchronous [fetchWeather] split at its
    single [await], and the element tree the component returns.  The
    platform pieces the component calls (String.prototype.split / trim,
    URLSearchParams) are modelled from the ECMAScript and URL standards.
    Values have the types the source declares for them: the response
    body is a [Reading[]], an error text is a string. *)

From Stdlib Require Import List NArith ZArith Bool Ascii String Lia.
From Stdlib Require Import Floats.PrimFloat.
Import ListNotations.

Open Scope N_scope.

Set Warnings "-register-all".

(** ** JavaScript strings *)

Module Js.

(** A JavaScript string is a finite sequence of UTF-16 code units. *)
Definition jsstring := list N.

Definition code_unit (c : N) : Prop := c < 65536.
Definition well_formed (s : jsstring) : Prop := Forall code_unit s.

(** A string literal of the source whose characters are all ASCII. *)
Definition lit (s : string) : jsstring :=
  map N_of_ascii (list_ascii_of_string s).

(** ECMAScript LineTerminator code points. *)
Definition is_line_terminator (c : N) : bool :=
  (c =? 0x0A) || (c =? 0x0D) || (c =? 0x2028) || (c =? 0x2029).

(** ECMAScript WhiteSpace code points (TAB, VT, FF, ZWNBSP and the
    space separators of Unicode). *)
Definition is_white_space (c : N) : bool :=
  (c =? 0x09) || (c =? 0x0B) || (c =? 0x0C) || (c =? 0x20) || (c =? 0xA0)
  || (c =? 0x1680) || ((0x2000 <=? c) && (c <=? 0x200A))
  || (c =? 0x202F) || (c =? 0x205F) || (c =? 0x3000) || (c =? 0xFEFF).

(** What [String.prototype.trim] strips from both ends. *)
Definition trim_char (c : N) : bool :=
  is_white_space c || is_line_terminator c.

Fixpoint trim_start (s : jsstring) : jsstring :=
  match s with
  | [] => []
  | c :: t => if trim_char c then trim_start t else s
  end.

Definition trim_end (s : jsstring) : jsstring :=
  rev (trim_start (rev s)).

Definition trim (s : jsstring) : jsstring := trim_end (trim_start s).

(** The separator of [split(/\n|\r/)]: one LF or one CR. *)
Definition is_break (c : N) : bool := (c =? 0x0A) || (c =? 0x0D).

(** Splitting at every code unit that is a separator: the pieces
    between the separators, empty pieces included; the empty string
    gives one empty piece. *)
Fixpoint split_when (sep : N -> bool) (s : jsstring) : list jsstring :=
  match s with
  | [] => [[]]
  | c :: t =>
      if sep c then [] :: split_when sep t
      else match split_when sep t with
           | piece :: rest => (c :: piece) :: rest
           | [] => [[c]]
           end
  end.

(** [s.split(/\n|\r/)]. *)
Definition split_breaks (s : jsstring) : list jsstring :=
  split_when is_break s.

(** [Boolean(s)] for a string: only the empty string is falsy. *)
Definition truthy (s : jsstring) : bool :=
  match s with
  | [] => false
  | _ :: _ => true
  end.

(** [a || b] where [a] may be [undefined] (None) and [b] is the
    fall-back expression. *)
Definition or_else (a : option jsstring) (b : jsstring) : jsstring :=
  match a with
  | Some s => if truthy s then s else b
  | None => b
  end.

(** [parts.join(sep)] for a one-unit separator. *)
Fixpoint join (sep : N) (parts : list jsstring) : jsstring :=
  match parts with
  | [] => []
  | [x] => x
  | x :: rest => x ++ sep :: join sep rest
  end.

(** The text of a textarea holding the given lines. *)
Definition join_lf (ls : list jsstring) : jsstring := join 0x0A ls.

Definition no_break (s : jsstring) : Prop :=
  Forall (fun c => is_break c = false) s.

(** A line as the form passes it on: not empty, nothing for [trim] to
    strip, no line break inside. *)
Definition plain_line (l : jsstring) : Prop :=
  l <> [] /\ trim l = l /\ no_break l.

Definition ascii_only (s : jsstring) : Prop := Forall (fun c => c < 0x80) s.

End Js.

(** ** URLSearchParams and the application/x-www-form-urlencoded format *)

Module Url.
Import Js.

Definition is_high_surrogate (c : N) : bool := (0xD800 <=? c) && (c <? 0xDC00).
Definition is_low_surrogate (c : N) : bool := (0xDC00 <=? c) && (c <? 0xE000).

(** Conversion of a string to scalar values: a surrogate pair is one
    code point, a lone surrogate becomes U+FFFD. *)
Fixpoint scalar_values (s : jsstring) : list N :=
  match s with
  | [] => []
  | h :: t =>
      if is_high_surrogate h then
        match t with
        | l :: t' =>
            if is_low_surrogate l
            then (0x10000 + (h - 0xD800) * 0x400 + (l - 0xDC00)) :: scalar_values t'
            else 0xFFFD :: scalar_values t
        | [] => [0xFFFD]
        end
      else if is_low_surrogate h then 0xFFFD :: scalar_values t
      else h :: scalar_values t
  end.

(** The one to four bytes of a scalar value: the leading byte carries
    the length marker and the top bits, each continuation byte the
    marker 0x80 and six bits. *)
Definition utf8_of_scalar (cp : N) : list N :=
  if cp <? 0x80 then [cp]
  else if cp <? 0x800 then
    [0xC0 + cp / 64; 0x80 + cp mod 64]
  else if cp <? 0x10000 then
    [0xE0 + cp / 4096; 0x80 + (cp / 64) mod 64; 0x80 + cp mod 64]
  else
    [0xF0 + cp / 262144; 0x80 + (cp / 4096) mod 64;
     0x80 + (cp / 64) mod 64; 0x80 + cp mod 64].

(** UTF-8 encode: the bytes a string has on the wire. *)
Definition utf8_encode (s : jsstring) : list N :=
  flat_map utf8_of_scalar (scalar_values s).

Definition is_digit (b : N) : bool := (0x30 <=? b) && (b <=? 0x39).
Definition is_upper (b : N) : bool := (0x41 <=? b) && (b <=? 0x5A).
Definition is_lower (b : N) : bool := (0x61 <=? b) && (b <=? 0x7A).

(** Bytes outside the application/x-www-form-urlencoded percent-encode
    set: ASCII alphanumerics and [* - . _]. *)
Definition unreserved (b : N) : bool :=
  is_digit b || is_upper b || is_lower b
  || (b =? 0x2A) || (b =? 0x2D) || (b =? 0x2E) || (b =? 0x5F).

Definition hex_digit (d : N) : N :=
  if d <? 10 then 0x30 + d else 0x41 + (d - 10).

Definition percent_encode_byte (b : N) : jsstring :=
  if b =? 0x20 then [0x2B]
  else if unreserved b then [b]
  else [0x25; hex_digit (b / 16); hex_digit (b mod 16)].

(** Percent-encode after UTF-8 encoding, space as plus. *)
Definition encode_component (s : jsstring) : jsstring :=
  flat_map percent_encode_byte (utf8_encode s).

(** The list of name-value pairs a URLSearchParams object holds. *)
Definition URLSearchParams := list (jsstring * jsstring).

Definition new_URLSearchParams : URLSearchParams := [].

Definition append (name value : jsstring) (p : URLSearchParams) : URLSearchParams :=
  p ++ [(name, value)].

Definition name_eqb (a b : jsstring) : bool :=
  if list_eq_dec N.eq_dec a b then true else false.

Fixpoint remove_name (name : jsstring) (p : URLSearchParams) : URLSearchParams :=
  match p with
  | [] => []
  | (n, v) :: rest =>
      if name_eqb n name then remove_name name rest
      else (n, v) :: remove_name name rest
  end.

(** [set]: overwrite the first pair of that name and drop the others,
    or append when there is none. *)
Fixpoint set (name value : jsstring) (p : URLSearchParams) : URLSearchParams :=
  match p with
  | [] => [(name, value)]
  | (n, v) :: rest =>
      if name_eqb n name then (n, value) :: remove_name name rest
      else (n, v) :: set name value rest
  end.

Definition serialize_pair (nv : jsstring * jsstring) : jsstring :=
  encode_component (fst nv) ++ 0x3D :: encode_component (snd nv).

Definition join_amp (parts : list jsstring) : jsstring := join 0x26 parts.

(** [params.toString()]: the urlencoded serializer. *)
Definition toString (p : URLSearchParams) : jsstring :=
  join_amp (map serialize_pair p).

(** The receiving side, as the URL standard's urlencoded parser reads a
    query string, up to the bytes of each name and value. *)
Definition hex_value (c : N) : option N :=
  if is_digit c then Some (c - 0x30)
  else if (0x41 <=? c) && (c <=? 0x46) then Some (c - 0x41 + 10)
  else if (0x61 <=? c) && (c <=? 0x66) then Some (c - 0x61 + 10)
  else None.

Fixpoint percent_decode (s : list N) : list N :=
  match s with
  | [] => []
  | c :: t =>
      if c =? 0x25 then
        match t with
        | h :: l :: t' =>
            match hex_value h, hex_value l with
            | Some a, Some b => (16 * a + b) :: percent_decode t'
            | _, _ => c :: percent_decode t
            end
        | _ => c :: percent_decode t
        end
      else c :: percent_decode t
  end.

Definition plus_to_space (s : list N) : list N :=
  map (fun c => if c =? 0x2B then 0x20 else c) s.

Definition split_on (sep : N) (s : list N) : list (list N) :=
  split_when (fun c => c =? sep) s.

Fixpoint cut_at (sep : N) (s : list N) : list N * list N :=
  match s with
  | [] => ([], [])
  | c :: t =>
      if c =? sep then ([], t)
      else let (a, b) := cut_at sep t in (c :: a, b)
  end.

Definition parse_pair (seq : list N) : list N * list N :=
  let (n, v) := cut_at 0x3D seq in
  (percent_decode (plus_to_space n), percent_decode (plus_to_space v)).

Definition parse_query (q : list N) : list (list N * list N) :=
  map parse_pair (filter truthy (split_on 0x26 q)).

(** A byte of the wire format. *)
Definition byte (b : N) : Prop := b < 256.

Definition well_formed_pair (nv : jsstring * jsstring) : Prop :=
  well_formed (fst nv) /\ well_formed (snd nv).

(** A name-value pair as the receiver sees it: the UTF-8 bytes of
    each string. *)
Definition wire_pair (nv : jsstring * jsstring) : list N * list N :=
  (utf8_encode (fst nv), utf8_encode (snd nv)).

End Url.

(** ** The component *)

Module Reading.

(** A JavaScript number is an IEEE-754 binary64 value. *)
Definition number := float.

(** [type Reading]. *)
Record t := {
  provider : Js.jsstring;
  latitude : number;
  longitude : number;
  observed_at_unix : option number;
  temperature_c : option number;
  temperature_f : option number;
  humidity_pct : option number;
  pressure_hpa : option number;
  wind_speed_ms : option number;
  wind_direction_deg : option number;
  condition_code : option Js.jsstring;
  condition_text : option Js.jsstring
}.

End Reading.

Module Dom.
Import Js.

(** Props of the elements [App] returns.  Handlers are named by the
    function they call. *)
Inductive handler := fetchWeather_handler | setCoordsText_handler.

Inductive attr :=
| style (css : string)
| value (v : jsstring)
| rows (n : N)
| disabled (b : bool)
| onClick (h : handler)
| onChange (h : handler)
| key (idx : nat).

(** A React child: nothing ([null]), a string, a number or an element. *)
Inductive node :=
| Nothing
| Text (s : jsstring)
| Number (x : Reading.number)
| Element (tag : string) (attrs : list attr) (children : list node).

(** The elements of a tree with a given tag, in document order. *)
Fixpoint descendants (tag : string) (n : node) : list node :=
  match n with
  | Element t _ ch =>
      (if String.eqb t tag then [n] else []) ++ flat_map (descendants tag) ch
  | _ => []
  end.

Definition children_of (n : node) : list node :=
  match n with
  | Element _ _ ch => ch
  | _ => []
  end.

Definition attrs_of (n : node) : list attr :=
  match n with
  | Element _ a _ => a
  | _ => []
  end.

Definition is_disabled (n : node) : bool :=
  existsb (fun a => match a with disabled true => true | _ => false end)
          (attrs_of n).

(** [xs.map((x, idx) => f x idx)]. *)
Fixpoint mapi_from {A B} (f : A -> nat -> B) (i : nat) (xs : list A) : list B :=
  match xs with
  | [] => []
  | x :: rest => f x i :: mapi_from f (S i) rest
  end.

Definition mapi {A B} (f : A -> nat -> B) (xs : list A) : list B :=
  mapi_from f 0%nat xs.

End Dom.

Module App.
Import Js Url Dom.

(** What [axios.get] rejects with, as far as the [catch] clause looks
    into it: [e?.response?.data?.error] and [e?.message]. *)
Record ErrorBody := { body_error : option jsstring }.
Record Response := { data : option ErrorBody }.
Record Thrown := { response : option Response; message : option jsstring }.

(** How the awaited [axios.get<Reading[]>(url)] settles. *)
Inductive Outcome :=
| Resolved (resp_data : list Reading.t)
| Rejected (e : option Thrown).

Inductive Request := Get (url : jsstring).

Definition url_of (r : Request) : jsstring := let (u) := r in u.

(** The five [useState] cells. *)
Record State := {
  provider : jsstring;
  coordsText : jsstring;
  readings : option (list Reading.t);
  loading : bool;
  error : option jsstring
}.

Definition initial : State :=
  {| provider := lit "openmeteo";
     coordsText := lit "37.7749,-122.4194" ++ 0x0A :: lit "40.7128,-74.0060";
     readings := None;
     loading := false;
     error := None |}.

Definition setCoordsText (s : jsstring) (st : State) : State :=
  {| provider := provider st; coordsText := s; readings := readings st;
     loading := loading st; error := error st |}.

Definition setReadings (r : option (list Reading.t)) (st : State) : State :=
  {| provider := provider st; coordsText := coordsText st; readings := r;
     loading := loading st; error := error st |}.

Definition setLoading (b : bool) (st : State) : State :=
  {| provider := provider st; coordsText := coordsText st; readings := readings st;
     loading := b; error := error st |}.

Definition setError (e : option jsstring) (st : State) : State :=
  {| provider := provider st; coordsText := coordsText st; readings := readings st;
     loading := loading st; error := e |}.

(** [coordsText.split(/\n|\r/).map((s) => s.trim()).filter(Boolean)]. *)
Definition coordsList (coordsText : jsstring) : list jsstring :=
  filter truthy (map trim (split_breaks coordsText)).

(** Optional chaining [o?.f]. *)
Definition chain {A B} (o : option A) (f : A -> option B) : option B :=
  match o with
  | Some a => f a
  | None => None
  end.

(** [e?.response?.data?.error]: the text of the endpoint's
    [{error: string}] body, when the rejection carries one. *)
Definition endpoint_error (e : option Thrown) : option jsstring :=
  chain (chain (chain e response) data) body_error.

(** [e?.message]: the message of the failure itself. *)
Definition transport_message (e : option Thrown) : option jsstring :=
  chain e message.

(** [e?.response?.data?.error || e?.message || 'Request failed']. *)
Definition error_text (e : option Thrown) : jsstring :=
  or_else (endpoint_error e)
          (or_else (transport_message e) (lit "Request failed")).

Section Build.

(** [import.meta.env.VITE_BACKEND_BASE], fixed when the bundle is
    built; [None] when the variable is not defined. *)
Variable VITE_BACKEND_BASE : option jsstring.

Definition BACKEND_BASE : jsstring :=
  or_else VITE_BACKEND_BASE (lit "http://127.0.0.1:8010").

(** The [params] object [fetchWeather] builds. *)
Definition fetch_params (st : State) : URLSearchParams :=
  let params := new_URLSearchParams in
  let params := set (lit "provider") (provider st) params in
  fold_left (fun params c => append (lit "coords") c params)
            (coordsList (coordsText st)) params.

Definition fetch_url (st : State) : jsstring :=
  BACKEND_BASE ++ lit "/api/weather?" ++ toString (fetch_params st).

(** [fetchWeather] up to its [await]: the three state updates, then
    the request built from the [provider] and [coordsList] of the
    render the handler belongs to. *)
Definition fetchWeather_begin (st : State) : State * Request :=
  let st' := setLoading true st in
  let st' := setError None st' in
  let st' := setReadings None st' in
  (st', Get (fetch_url st)).

(** [fetchWeather] from the [await] on: the rest of [try] or the
    [catch] clause, then [finally]. *)
Definition fetchWeather_resume (o : Outcome) (st : State) : State :=
  let st :=
    match o with
    | Resolved resp_data => setReadings (Some resp_data) st
    | Rejected e => setError (Some (error_text e)) st
    end in
  setLoading false st.

End Build.

(** [r.field ?? '']. *)
Definition cell (x : option Reading.number) : node :=
  match x with
  | Some v => Number v
  | None => Text []
  end.

Definition td (child : node) : node := Element "td" [] [child].
Definition th (label : jsstring) : node := Element "th" [] [Text label].

Definition table_head : list node :=
  [ th (lit "T (" ++ 0xB0 :: lit "C)");
    th (lit "Hum (%)");
    th (lit "Press (hPa)");
    th (lit "Wind (m/s)");
    th (lit "Dir (" ++ 0xB0 :: lit ")") ].

(** The fields a row reads, in the order of its cells. *)
Definition displayed_fields (r : Reading.t) : list (option Reading.number) :=
  [ Reading.temperature_c r; Reading.humidity_pct r; Reading.pressure_hpa r;
    Reading.wind_speed_ms r; Reading.wind_direction_deg r ].

Definition table_row (r : Reading.t) (idx : nat) : node :=
  Element "tr" [key idx]
    [ td (cell (Reading.temperature_c r));
      td (cell (Reading.humidity_pct r));
      td (cell (Reading.pressure_hpa r));
      td (cell (Reading.wind_speed_ms r));
      td (cell (Reading.wind_direction_deg r)) ].

(** [{error && (<div ...>Error: {error}</div>)}]. *)
Definition error_banner (error : option jsstring) : node :=
  match error with
  | None => Nothing
  | Some e =>
      if truthy e
      then Element "div" [style "color: red; marginTop: 12"]
                   [Text (lit "Error: "); Text e]
      else Text e
  end.

(** [{readings && (<div ...><table>...</table></div>)}]; an array,
    empty or not, is truthy. *)
Definition readings_table (readings : option (list Reading.t)) : node :=
  match readings with
  | None => Nothing
  | Some rs =>
      Element "div" [style "marginTop: 16; overflowX: auto"]
        [ Element "table" []
            [ Element "thead" [] [Element "tr" [] table_head];
              Element "tbody" [] (mapi table_row rs) ] ]
  end.

(** What [App] returns. *)
Definition view (st : State) : node :=
  Element "div" [style "maxWidth: 900; margin: 24px auto; padding: 16"]
    [ Element "h2" [] [Text (lit "Weather Fetcher")];
      Element "div" [style "display: grid; gap: 12; gridTemplateColumns: 1fr"]
        [ Element "label" []
            [ Text (lit "Coordinates (one per line, lat,lon)");
              Element "textarea"
                [ value (coordsText st); onChange setCoordsText_handler;
                  rows 6; style "width: 100%; fontFamily: monospace" ] [] ];
          Element "button" [onClick fetchWeather_handler; disabled (loading st)]
            [ Text (if loading st
                    then lit "Fetching" ++ [0x2026]
                    else lit "Fetch Weather") ] ];
      error_banner (error st);
      readings_table (readings st) ].

(** Queries on the rendered tree. *)
Definition fetch_button_disabled (v : node) : bool :=
  existsb is_disabled (descendants "button" v).

Definition header_cells (v : node) : list node :=
  flat_map (descendants "th") (descendants "thead" v).

Definition body_rows (v : node) : list node :=
  flat_map (descendants "tr") (descendants "tbody" v).

Definition row_cells (row : node) : list node :=
  flat_map children_of (descendants "td" row).

(** ** The form as a transition system

    The page holds the component state and the requests that have
    been sent and not yet answered.  The user types, clicks the
    button (the click reaches [fetchWeather] only when the rendered
    button is not disabled), and the network settles a pending
    request, in any order.  React renders again after the state
    updates of one event and before the next event is handled, so
    each event meets the view of the current state. *)

Record Page := {
  ui : State;
  pending : list Request;
  sent : list Request
}.

Inductive Event :=
| Typed (text : jsstring)
| Click
| Settle (i : nat) (o : Outcome).

Definition start : Page := {| ui := initial; pending := []; sent := [] |}.

Section Run.

Variable VITE_BACKEND_BASE : option jsstring.

Definition step (p : Page) (ev : Event) : Page :=
  match ev with
  | Typed text =>
      {| ui := setCoordsText text (ui p); pending := pending p; sent := sent p |}
  | Click =>
      if fetch_button_disabled (view (ui p)) then p
      else
        let (st, rq) := fetchWeather_begin VITE_BACKEND_BASE (ui p) in
        {| ui := st; pending := pending p ++ [rq]; sent := sent p ++ [rq] |}
  | Settle i o =>
      match nth_error (pending p) i with
      | None => p
      | Some _ =>
          {| ui := fetchWeather_resume o (ui p);
             pending := firstn i (pending p) ++ skipn (S i) (pending p);
             sent := sent p |}
      end
  end.

Definition run (evs : list Event) (p : Page) : Page := fold_left step evs p.

Inductive reachable : Page -> Prop :=
| reach_start : reachable start
| reach_step p ev : reachable p -> reachable (step p ev).

(** Every request on record was built by [fetchWeather] for the
    provider the form starts with. *)
Definition sent_by_form (p : Page) : Prop :=
  Forall (fun rq => exists st,
            provider st = lit "openmeteo" /\ rq = Get (fetch_url VITE_BACKEND_BASE st))
         (sent p).

End Run.

(** No fetch under way: [loading] is off and at most one of [error]
    and [readings] is set. *)
Definition idle (st : State) : Prop :=
  loading st = false /\ (error st = None \/ readings st = None).

(** A fetch under way: [loading] is on, [error] and [readings] are
    both cleared. *)
Definition fetching (st : State) : Prop :=
  loading st = true /\ error st = None /\ readings st = None.

(** The shape of every page the form reaches. *)
Definition consistent (p : Page) : Prop :=
  provider (ui p) = lit "openmeteo" /\
  match pending p with
  | [] => idle (ui p)
  | [_] => fetching (ui p)
  | _ :: _ :: _ => False
  end.

End App.

(** ** What the specification says a coordinate is *)

Module Coordinate.
Import Js Url.

Definition strip_sign (s : jsstring) : jsstring :=
  match s with
  | c :: t => if (c =? 0x2D) || (c =? 0x2B) then t else s
  | [] => []
  end.

Fixpoint skip_digits (s : jsstring) : jsstring :=
  match s with
  | c :: t => if is_digit c then skip_digits t else s
  | [] => []
  end.

(** Modelled from the spec: the coordinate parser is backend code that
    is not among the sources; the spec only says a coordinate is a
    "lat,lon" string of two finite floating-point degrees.  A degree
    is read here as a signed decimal numeral with an optional
    fraction. *)
Definition is_degree (s : jsstring) : bool :=
  let body := strip_sign s in
  match body with
  | [] => false
  | c :: _ =>
      is_digit c &&
      match skip_digits body with
      | [] => true
      | d :: frac => (d =? 0x2E) && truthy frac && forallb is_digit frac
      end
  end.

(** The characters a well-formed coordinate is written with. *)
Definition coord_char (c : N) : bool :=
  is_digit c || (c =? 0x2B) || (c =? 0x2D) || (c =? 0x2E) || (c =? 0x2C).

(** Modelled from the spec: a well-formed "lat,lon" string is two
    degrees separated by one comma. *)
Definition well_formed_coord (s : jsstring) : bool :=
  match split_on 0x2C s with
  | [lat; lon] => is_degree lat && is_degree lon
  | _ => false
  end.

End Coordinate.


(** ** Observations on texts, event lists and the rendered tree *)

Module Observe.
Import Js Url Dom App.

(** A text [trim] strips to nothing: only white space and line
    terminators. *)
Definition blank (s : jsstring) : Prop :=
  Forall (fun c => trim_char c = true) s.

(** The code units a serialized query string is written with: the
    unreserved ones, [+] for a space, [%] of an escape, and the [=]
    and [&] that separate names, values and pairs. *)
Definition query_safe (c : N) : bool :=
  unreserved c || (c =? 0x2B) || (c =? 0x25) || (c =? 0x3D) || (c =? 0x26).

(** How many clicks an event list holds. *)
Fixpoint clicks (evs : list Event) : nat :=
  match evs with
  | [] => 0%nat
  | Click :: rest => S (clicks rest)
  | _ :: rest => clicks rest
  end.

(** The children of the rendered button. *)
Definition button_label (v : node) : list node :=
  flat_map children_of (descendants "button" v).

Definition value_of (a : attr) : list jsstring :=
  match a with
  | value v => [v]
  | _ => []
  end.

(** The [value] props of the rendered textareas. *)
Definition textarea_values (v : node) : list jsstring :=
  flat_map (fun n => flat_map value_of (attrs_of n)) (descendants "textarea" v).

Definition key_of (a : attr) : list nat :=
  match a with
  | key k => [k]
  | _ => []
  end.

(** The [key] props of the rows of the table body, in order. *)
Definition row_keys (v : node) : list nat :=
  flat_map (fun n => flat_map key_of (attrs_of n)) (body_rows v).

(** The line the form shows for an error text. *)
Definition error_line (e : jsstring) : node :=
  Element "div" [style "color: red; marginTop: 12"] [Text (lit "Error: "); Text e].

End Observe.

(** ** What the specification lists as the table's columns *)

Module Spec.

(** The normalized scalar fields of a reading, as the specification
    enumerates them for the CSV output and the form's table. *)
Definition normalized_scalar_fields : list string :=
  [ "provider"; "coordinate"; "timestamp"; "temperature_c"; "humidity_pct";
    "pressure_hpa"; "wind_speed_ms"; "wind_direction_deg"; "condition_code";
    "condition_text" ]%string.

End Spec.

(** ** Sample data *)

Module Sample.
Import Js App.

(** A reading for San Francisco with no pressure and no wind direction. *)
Definition san_francisco : Reading.t :=
  {| Reading.provider := lit "openmeteo";
     Reading.latitude := 37.75%float;
     Reading.longitude := (-122.5)%float;
     Reading.observed_at_unix := Some 1700000000%float;
     Reading.temperature_c := Some 18.5%float;
     Reading.temperature_f := Some 65.5%float;
     Reading.humidity_pct := Some 72%float;
     Reading.pressure_hpa := None;
     Reading.wind_speed_ms := Some 3.5%float;
     Reading.wind_direction_deg := None;
     Reading.condition_code := Some (lit "3");
     Reading.condition_text := None |}.

(** The same observation attributed to another provider. *)
Definition san_francisco_weatherapi : Reading.t :=
  {| Reading.provider := lit "weatherapi";
     Reading.latitude := 37.75%float;
     Reading.longitude := (-122.5)%float;
     Reading.observed_at_unix := Some 1700000000%float;
     Reading.temperature_c := Some 18.5%float;
     Reading.temperature_f := Some 65.5%float;
     Reading.humidity_pct := Some 72%float;
     Reading.pressure_hpa := None;
     Reading.wind_speed_ms := Some 3.5%float;
     Reading.wind_direction_deg := None;
     Reading.condition_code := Some (lit "1003");
     Reading.condition_text := Some (lit "Partly cloudy") |}.

(** A 400 answer of the endpoint with its [{error: ...}] body. *)
Definition bad_request : option Thrown :=
  Some {| response := Some {| data := Some {| body_error := Some (lit "Invalid coords") |} |};
          message := Some (lit "Request failed with status code 400") |}.

(** A failure with no response at all. *)
Definition network_error : option Thrown :=
  Some {| response := None; message := Some (lit "Network Error") |}.

(** The page after the user replaced the text by one malformed line. *)
Definition malformed_page : Page :=
  step None start (Typed (lit "not,a,coord")).

End Sample.

(** ** More sample inputs *)

Module Scenario.
Import Js App.

(** Two spaces, a Windows line end and one more space. *)
Definition blank_text : jsstring := lit "  " ++ [0x0D; 0x0A] ++ lit " ".

(** The page after the user replaced the text by [blank_text]. *)
Definition blank_page : Page := step None start (Typed blank_text).

(** Two coordinates separated by a Windows line end, the second one
    padded with spaces. *)
Definition crlf_text : jsstring :=
  lit "37.7749,-122.4194" ++ [0x0D; 0x0A] ++ lit " 40.7128,-74.0060 ".

(** A thrown value with neither a response nor a message. *)
Definition bare_failure : option Thrown :=
  Some {| response := None; message := None |}.

(** Three user actions and one answer. *)
Definition session : list Event :=
  [ Typed (lit "51.5074,-0.1278"); Click; Click;
    Settle 0 (Rejected bare_failure) ].

End Scenario.

(** ** The thrown value as [any]

    [catch (e: any)] checks nothing about what was thrown.  [Thrown]
    above is the part of [any] that axios and the endpoint's
    [{error: string}] body fill in: absent or string fields.  The
    values below are what line 48 can meet in general, and [of_thrown]
    places the typed rejections among them. *)

Module Any.
Import Js App.

(** A JavaScript value built from primitives and plain objects; an
    array or an [Error] is an object here, since line 48 only reads
    properties and tests truthiness. *)
Inductive value :=
| VUndefined
| VNull
| VBoolean (b : bool)
| VNumber (x : Reading.number)
| VBigInt (z : Z)
| VSymbol
| VString (s : jsstring)
| VObject (fields : list (string * value)).

(** [Boolean(v)]: [undefined], [null], [false], [0], [-0], [NaN],
    [0n] and the empty string are falsy. *)
Definition truthy_value (v : value) : bool :=
  match v with
  | VUndefined | VNull => false
  | VBoolean b => b
  | VNumber x => negb (PrimFloat.is_zero x || PrimFloat.is_nan x)
  | VBigInt z => negb (Z.eqb z 0)
  | VSymbol => true
  | VString s => truthy s
  | VObject _ => true
  end.

Fixpoint lookup {A} (name : string) (fields : list (string * A)) : option A :=
  match fields with
  | [] => None
  | (n, v) :: rest => if String.eqb n name then Some v else lookup name rest
  end.

(** [v?.name] for a name no primitive carries: the field of an
    object, [undefined] when it has none or when [v] is not an object. *)
Definition read (v : value) (name : string) : value :=
  match v with
  | VObject fields =>
      match lookup name fields with
      | Some x => x
      | None => VUndefined
      end
  | _ => VUndefined
  end.

(** [a || b]. *)
Definition or_value (a b : value) : value :=
  if truthy_value a then a else b.

(** [e?.response?.data?.error]. *)
Definition endpoint_error_value (e : value) : value :=
  read (read (read e "response"%string) "data"%string) "error"%string.

(** [e?.message]. *)
Definition message_value (e : value) : value := read e "message"%string.

(** [e?.response?.data?.error || e?.message || 'Request failed'], the
    argument of [setError], for any thrown value. *)
Definition error_value (e : value) : value :=
  or_value (endpoint_error_value e)
           (or_value (message_value e) (VString (lit "Request failed"))).

Definition of_text (o : option jsstring) : value :=
  match o with
  | Some s => VString s
  | None => VUndefined
  end.

Definition of_body (b : option ErrorBody) : value :=
  match b with
  | Some b => VObject [("error"%string, of_text (body_error b))]
  | None => VUndefined
  end.

Definition of_response (r : option Response) : value :=
  match r with
  | Some r => VObject [("data"%string, of_body (data r))]
  | None => VUndefined
  end.

(** A typed rejection as a value. *)
Definition of_thrown (e : option Thrown) : value :=
  match e with
  | Some t => VObject [("response"%string, of_response (response t));
                       ("message"%string, of_text (message t))]
  | None => VUndefined
  end.

End Any.

(** ** What the specification says the endpoint returns *)

Module Endpoint.
Import Js Url App.

(** Modelled from the spec: the HTTP Endpoint is backend code that is
    not among the sources.  It reads the [coords] values of
    [GET /api/weather?provider=<name>&coords=<lat,lon>[&coords=...]]
    in the order they are written. *)
Definition coords_received (query : jsstring) : list (list N) :=
  map snd (filter (fun nv => name_eqb (fst nv) (lit "coords")) (parse_query query)).

(** Modelled from the spec: the Fetch Orchestrator is backend code that
    is not among the sources.  Its invariant is that the Reading list
    returned to the caller preserves the order of the input coordinate
    list, and that a coordinate which fails does not reorder the
    remaining results: the readings answer coordinates of the input,
    taken from first to last, a coordinate being answered or passed
    over.  [R c r] says that reading [r] answers coordinate [c]. *)
Inductive in_order {A B} (R : A -> B -> Prop) : list A -> list B -> Prop :=
| in_order_nil : in_order R [] []
| in_order_answer c cs r rs :
    R c r -> in_order R cs rs -> in_order R (c :: cs) (r :: rs)
| in_order_skip c cs rs :
    in_order R cs rs -> in_order R (c :: cs) rs.

Section Provider.

(** [answers c r]: the selected provider's normalized observation for
    the coordinate written [c] is [r].  The providers are external
    services. *)
Variable answers : list N -> Reading.t -> Prop.

(** Modelled from the spec: a 200 response of the endpoint to a request
    with the given query string carries readings that answer its
    [coords] values in input order. *)
Definition ok_response (query : jsstring) (resp_data : list Reading.t) : Prop :=
  in_order answers (coords_received query) resp_data.

(** A rendered row shows a reading that answers the given line. *)
Definition row_answers (line : jsstring) (row : Dom.node) : Prop :=
  exists r k, row = table_row r k /\ answers (utf8_encode line) r.

End Provider.

End Endpoint.

(** ** Sample answers *)

Module Journey.
Import Js Url App Any Endpoint Sample.

(** A reading for New York. *)
Definition new_york : Reading.t :=
  {| Reading.provider := lit "openmeteo";
     Reading.latitude := 40.75%float;
     Reading.longitude := (-74)%float;
     Reading.observed_at_unix := Some 1700000000%float;
     Reading.temperature_c := Some 7.5%float;
     Reading.temperature_f := Some 45.5%float;
     Reading.humidity_pct := Some 60%float;
     Reading.pressure_hpa := Some 1012%float;
     Reading.wind_speed_ms := None;
     Reading.wind_direction_deg := Some 270%float;
     Reading.condition_code := None;
     Reading.condition_text := None |}.

(** A provider that knows the two coordinates the form starts with. *)
Definition sample_answers (c : list N) (r : Reading.t) : Prop :=
  (c = lit "37.7749,-122.4194" /\ r = san_francisco)
  \/ (c = lit "40.7128,-74.0060" /\ r = new_york).

(** A rejection whose body carries an object where the error text
    should be. *)
Definition object_error : value :=
  VObject [("response"%string,
            VObject [("data"%string,
                      VObject [("error"%string, VObject [("code"%string, VNumber 400%float)])])]);
           ("message"%string, VString (lit "Request failed with status code 400"))].

(** A thrown number. *)
Definition thrown_zero : value := VNumber 0%float.

End Journey.

(** * Properties *)

(** Let [lia] see through division and remainder by a constant. *)
Ltac Zify.zify_post_hook ::= Z.to_euclidean_division_equations.

(** ** Strings: splitting, joining, trimming *)

Module JsFacts.
Import Js.

Ltac bool_arith :=
  repeat first
    [ rewrite orb_true_iff in * | rewrite orb_false_iff in *
    | rewrite andb_true_iff in * | rewrite andb_false_iff in *
    | rewrite N.eqb_eq in * | rewrite N.eqb_neq in *
    | rewrite N.leb_le in * | rewrite N.leb_gt in *
    | rewrite N.ltb_lt in * | rewrite N.ltb_ge in * ];
  lia.

Lemma split_when_not_nil sep s : split_when sep s <> [].
Proof.
  destruct s as [|c t]; simpl; [discriminate|].
  destruct (sep c); [discriminate|].
  destruct (split_when sep t); discriminate.
Qed.

Lemma split_when_clean sep l :
  Forall (fun c => sep c = false) l -> split_when sep l = [l].
Proof.
  induction 1 as [|c t Hc _ IH]; simpl; [reflexivity|].
  now rewrite Hc, IH.
Qed.

Lemma split_when_app sep l c rest :
  Forall (fun c => sep c = false) l -> sep c = true ->
  split_when sep (l ++ c :: rest) = l :: split_when sep rest.
Proof.
  intros Hl Hc. induction Hl as [|a t Ha _ IH]; simpl.
  - now rewrite Hc.
  - now rewrite Ha, IH.
Qed.

Lemma split_when_join sep c parts :
  sep c = true -> parts <> [] ->
  Forall (Forall (fun c => sep c = false)) parts ->
  split_when sep (join c parts) = parts.
Proof.
  intros Hc Hne Hall. induction Hall as [|l ls Hl Hls IH]; [congruence|].
  destruct ls as [|l' ls'].
  - simpl. now apply split_when_clean.
  - change (join c (l :: l' :: ls')) with (l ++ c :: join c (l' :: ls')).
    rewrite split_when_app by assumption.
    f_equal. apply IH. discriminate.
Qed.

Lemma split_when_one sep s b :
  split_when sep s = [b] -> s = b /\ Forall (fun c => sep c = false) b.
Proof.
  revert b. induction s as [|x t IH]; simpl; intros b H.
  - injection H as <-. split; constructor.
  - destruct (sep x) eqn:Hx.
    + injection H as _ Ht. now apply split_when_not_nil in Ht.
    + destruct (split_when sep t) as [|p r] eqn:Hp.
      * now apply split_when_not_nil in Hp.
      * injection H as <- ->. destruct (IH p eq_refl) as [-> Hall].
        split; [reflexivity | now constructor].
Qed.

Lemma split_when_two sep s a b :
  split_when sep s = [a; b] ->
  exists c, sep c = true /\ s = a ++ c :: b
            /\ Forall (fun c => sep c = false) a
            /\ Forall (fun c => sep c = false) b.
Proof.
  revert a. induction s as [|x t IH]; simpl; intros a H; [discriminate|].
  destruct (sep x) eqn:Hx.
  - injection H as <- Ht. apply split_when_one in Ht as [-> Hb].
    exists x. repeat split; auto.
  - destruct (split_when sep t) as [|p r] eqn:Hp; [discriminate|].
    injection H as <- ->.
    destruct (IH p eq_refl) as (c & Hc & -> & Hp1 & Hb).
    exists c. repeat split; auto.
Qed.

Lemma filter_all {A} (f : A -> bool) l :
  Forall (fun x => f x = true) l -> filter f l = l.
Proof.
  induction 1 as [|x t Hx _ IH]; simpl; [reflexivity|]. now rewrite Hx, IH.
Qed.

Lemma map_fixed {A} (f : A -> A) l :
  Forall (fun x => f x = x) l -> map f l = l.
Proof.
  induction 1 as [|x t Hx _ IH]; simpl; [reflexivity|]. now rewrite Hx, IH.
Qed.

Lemma trim_start_clean s :
  Forall (fun c => trim_char c = false) s -> trim_start s = s.
Proof. destruct 1 as [|c t Hc _]; simpl; [reflexivity|]. now rewrite Hc. Qed.

Lemma trim_clean s :
  Forall (fun c => trim_char c = false) s -> trim s = s.
Proof.
  intros H. unfold trim, trim_end. rewrite (trim_start_clean s H).
  rewrite trim_start_clean by now apply Forall_rev.
  apply rev_involutive.
Qed.

Lemma trim_start_suffix s : exists pre, s = pre ++ trim_start s.
Proof.
  induction s as [|c t [pre IH]]; simpl.
  - now exists [].
  - destruct (trim_char c).
    + exists (c :: pre). simpl. now f_equal.
    + now exists [].
Qed.

Lemma well_formed_trim_start s : well_formed s -> well_formed (trim_start s).
Proof.
  unfold well_formed. intros H. destruct (trim_start_suffix s) as [pre E].
  rewrite E in H. now apply Forall_app in H.
Qed.

Lemma well_formed_trim s : well_formed s -> well_formed (trim s).
Proof.
  intros H. unfold trim, trim_end. apply Forall_rev.
  apply well_formed_trim_start. apply Forall_rev.
  now apply well_formed_trim_start.
Qed.

Lemma well_formed_split sep s :
  well_formed s -> Forall well_formed (split_when sep s).
Proof.
  unfold well_formed.
  induction 1 as [|c t Hc Ht IH]; simpl.
  - repeat constructor.
  - destruct (sep c).
    + constructor; [constructor | assumption].
    + destruct (split_when sep t) as [|p r]; [repeat constructor; assumption|].
      inversion IH; subst. constructor; [constructor|]; assumption.
Qed.

(** Lines that are plain come back from [split], [trim] and [filter]
    exactly as they were joined. *)
Lemma split_trim_filter_join ls :
  Forall plain_line ls ->
  filter truthy (map trim (split_breaks (join_lf ls))) = ls.
Proof.
  intros H. destruct ls as [|l ls']; [reflexivity|].
  unfold split_breaks, join_lf.
  rewrite split_when_join; [| reflexivity | discriminate |].
  - rewrite map_fixed.
    + apply filter_all. eapply Forall_impl; [|exact H].
      intros x (Hx & _ & _). now destruct x.
    + eapply Forall_impl; [|exact H]. now intros x (_ & Hx & _).
  - eapply Forall_impl; [|exact H]. now intros x (_ & _ & Hx).
Qed.

End JsFacts.

(** ** The urlencoded format: what is serialized parses back *)

Module UrlFacts.
Import Js Url JsFacts.

Lemma list_pair_ind {A} (P : list A -> Prop) :
  P [] -> (forall a, P [a]) ->
  (forall a b l, P l -> P (b :: l) -> P (a :: b :: l)) ->
  forall l, P l.
Proof.
  intros H0 H1 H2 l.
  assert (H : P l /\ forall a, P (a :: l)); [|apply H].
  induction l as [|b l [IHa IHb]]; split; auto.
Qed.

Lemma scalar_values_bound s :
  well_formed s -> Forall (fun cp => cp < 0x110000) (scalar_values s).
Proof.
  unfold well_formed, code_unit.
  induction s as [|a|a b l IHl IHbl] using list_pair_ind; intros H.
  - constructor.
  - inversion H; subst. simpl.
    destruct (is_high_surrogate a); [repeat constructor; lia|].
    destruct (is_low_surrogate a); repeat constructor; lia.
  - inversion H as [|? ? Ha Hbl]; subst.
    inversion Hbl as [|? ? Hb Hl]; subst.
    change (scalar_values (a :: b :: l)) with
      (if is_high_surrogate a then
         if is_low_surrogate b
         then (0x10000 + (a - 0xD800) * 0x400 + (b - 0xDC00)) :: scalar_values l
         else 0xFFFD :: scalar_values (b :: l)
       else if is_low_surrogate a then 0xFFFD :: scalar_values (b :: l)
       else a :: scalar_values (b :: l)).
    destruct (is_high_surrogate a) eqn:Hh.
    + destruct (is_low_surrogate b) eqn:Hlo.
      * constructor; [|auto].
        unfold is_high_surrogate, is_low_surrogate in *. bool_arith.
      * constructor; [lia|auto].
    + destruct (is_low_surrogate a); constructor; auto; lia.
Qed.

Lemma utf8_of_scalar_bytes cp :
  cp < 0x110000 -> Forall byte (utf8_of_scalar cp).
Proof.
  intros H. unfold utf8_of_scalar, byte.
  destruct (N.ltb_spec cp 0x80); [repeat constructor; lia|].
  destruct (N.ltb_spec cp 0x800); [repeat constructor; lia|].
  destruct (N.ltb_spec cp 0x10000); repeat constructor; lia.
Qed.

Lemma utf8_encode_bytes s : well_formed s -> Forall byte (utf8_encode s).
Proof.
  intros H. unfold utf8_encode. apply Forall_flat_map.
  eapply Forall_impl; [|apply scalar_values_bound, H].
  apply utf8_of_scalar_bytes.
Qed.

Lemma scalar_values_ascii s : ascii_only s -> scalar_values s = s.
Proof.
  induction 1 as [|c t Hc _ IH]; [reflexivity|].
  assert (Hh : is_high_surrogate c = false)
    by (unfold is_high_surrogate; bool_arith).
  assert (Hl : is_low_surrogate c = false)
    by (unfold is_low_surrogate; bool_arith).
  simpl. rewrite Hh, Hl. now f_equal.
Qed.

Lemma utf8_encode_ascii s : ascii_only s -> utf8_encode s = s.
Proof.
  intros H. unfold utf8_encode. rewrite (scalar_values_ascii s H).
  induction H as [|c t Hc _ IH]; [reflexivity|].
  simpl. unfold utf8_of_scalar at 1.
  destruct (N.ltb_spec c 0x80); [|lia]. simpl. now f_equal.
Qed.

Lemma ascii_only_well_formed s : ascii_only s -> well_formed s.
Proof.
  apply Forall_impl. unfold code_unit. intros; lia.
Qed.

Lemma hex_value_hex_digit d : d < 16 -> hex_value (hex_digit d) = Some d.
Proof.
  intros H.
  assert (E : d = 0 \/ d = 1 \/ d = 2 \/ d = 3 \/ d = 4 \/ d = 5 \/ d = 6
              \/ d = 7 \/ d = 8 \/ d = 9 \/ d = 10 \/ d = 11 \/ d = 12
              \/ d = 13 \/ d = 14 \/ d = 15) by lia.
  repeat (destruct E as [-> | E]; [reflexivity|]). now subst.
Qed.

Lemma hex_digit_plain d :
  d < 16 -> hex_digit d <> 0x26 /\ hex_digit d <> 0x3D /\ hex_digit d <> 0x2B.
Proof.
  intros H. unfold hex_digit. destruct (N.ltb_spec d 10); lia.
Qed.

Lemma unreserved_plain b :
  unreserved b = true ->
  b <> 0x26 /\ b <> 0x3D /\ b <> 0x2B /\ b <> 0x25.
Proof.
  unfold unreserved, is_digit, is_upper, is_lower. intros H. bool_arith.
Qed.

Lemma percent_decode_plain c t :
  c <> 0x25 -> percent_decode (c :: t) = c :: percent_decode t.
Proof. intros H. apply N.eqb_neq in H. simpl. now rewrite H. Qed.

Lemma percent_decode_escape h l t a b :
  hex_value h = Some a -> hex_value l = Some b ->
  percent_decode (0x25 :: h :: l :: t) = (16 * a + b) :: percent_decode t.
Proof. intros Ha Hb. cbn [percent_decode N.eqb Pos.eqb]. now rewrite Ha, Hb. Qed.

Lemma plus_to_space_plain c t :
  c <> 0x2B -> plus_to_space (c :: t) = c :: plus_to_space t.
Proof. intros H. apply N.eqb_neq in H. unfold plus_to_space. simpl. now rewrite H. Qed.

Lemma percent_decode_encode bs :
  Forall byte bs ->
  percent_decode (plus_to_space (flat_map percent_encode_byte bs)) = bs.
Proof.
  unfold byte. induction 1 as [|b t Hb _ IH]; [reflexivity|].
  cbn [flat_map]. unfold percent_encode_byte at 1.
  destruct (N.eqb_spec b 0x20) as [->|Hsp].
  - change (percent_decode (0x20 :: plus_to_space (flat_map percent_encode_byte t))
            = 0x20 :: t).
    rewrite percent_decode_plain by lia. now rewrite IH.
  - destruct (unreserved b) eqn:Hu.
    + apply unreserved_plain in Hu as (_ & _ & Hplus & Hpct).
      cbn [app]. rewrite plus_to_space_plain, percent_decode_plain by assumption.
      now rewrite IH.
    + assert (Hhi : b / 16 < 16) by lia.
      assert (Hlo : b mod 16 < 16) by lia.
      destruct (hex_digit_plain _ Hhi) as (_ & _ & H1).
      destruct (hex_digit_plain _ Hlo) as (_ & _ & H2).
      cbn [app]. rewrite !plus_to_space_plain by (assumption || lia).
      rewrite (percent_decode_escape _ _ _ _ _
                 (hex_value_hex_digit _ Hhi) (hex_value_hex_digit _ Hlo)).
      rewrite IH. f_equal. lia.
Qed.

Lemma percent_encode_plain bs :
  Forall byte bs ->
  Forall (fun c => c <> 0x26 /\ c <> 0x3D) (flat_map percent_encode_byte bs).
Proof.
  unfold byte. intros H. apply Forall_flat_map.
  eapply Forall_impl; [|exact H]. intros b Hb. cbv beta in Hb.
  unfold percent_encode_byte.
  destruct (N.eqb_spec b 0x20); [repeat constructor; lia|].
  destruct (unreserved b) eqn:Hu.
  - apply unreserved_plain in Hu. repeat constructor; lia.
  - assert (Hhi : b / 16 < 16) by lia.
    assert (Hlo : b mod 16 < 16) by lia.
    pose proof (hex_digit_plain _ Hhi). pose proof (hex_digit_plain _ Hlo).
    repeat constructor; lia.
Qed.

Lemma cut_at_app sep a b :
  Forall (fun c => c <> sep) a -> cut_at sep (a ++ sep :: b) = (a, b).
Proof.
  induction 1 as [|c t Hc _ IH]; simpl.
  - now rewrite N.eqb_refl.
  - apply N.eqb_neq in Hc. now rewrite Hc, IH.
Qed.

Lemma parse_pair_serialize n v :
  well_formed n -> well_formed v ->
  parse_pair (serialize_pair (n, v)) = (utf8_encode n, utf8_encode v).
Proof.
  intros Hn Hv. apply utf8_encode_bytes in Hn, Hv.
  unfold parse_pair, serialize_pair, encode_component. simpl fst; simpl snd.
  rewrite cut_at_app.
  - now rewrite !percent_decode_encode.
  - eapply Forall_impl; [|apply percent_encode_plain, Hn]. now intros c [_ H].
Qed.

Lemma serialize_pair_plain n v :
  well_formed n -> well_formed v ->
  Forall (fun c => (c =? 0x26) = false) (serialize_pair (n, v)).
Proof.
  intros Hn Hv. apply utf8_encode_bytes in Hn, Hv.
  unfold serialize_pair, encode_component. simpl fst; simpl snd.
  apply Forall_app. split; [|constructor; [reflexivity|]].
  - eapply Forall_impl; [|apply percent_encode_plain, Hn].
    intros c [H _]. now apply N.eqb_neq.
  - eapply Forall_impl; [|apply percent_encode_plain, Hv].
    intros c [H _]. now apply N.eqb_neq.
Qed.

(** The query string [toString] produces parses back to the pairs it
    was made from, each string as its UTF-8 bytes, in order. *)
Lemma parse_query_toString p :
  Forall well_formed_pair p ->
  parse_query (toString p) = map wire_pair p.
Proof.
  intros H. destruct p as [|nv p']; [reflexivity|].
  unfold parse_query, toString, join_amp, split_on.
  rewrite split_when_join; [| reflexivity | discriminate |].
  - rewrite filter_all.
    + rewrite map_map. apply map_ext_in. intros [n v] Hin.
      rewrite Forall_forall in H. destruct (H _ Hin).
      now apply parse_pair_serialize.
    + apply Forall_map. apply Forall_forall. intros [n v] _.
      unfold serialize_pair. now destruct (encode_component (fst (n, v))).
  - apply Forall_map. eapply Forall_impl; [|exact H].
    intros [n v] [Hn Hv]. now apply serialize_pair_plain.
Qed.

End UrlFacts.

(** ** Well-formed coordinates are plain ASCII lines *)

Module CoordinateFacts.
Import Js Url JsFacts Coordinate.

Lemma coord_char_plain c :
  coord_char c = true ->
  trim_char c = false /\ is_break c = false /\ c < 0x80.
Proof.
  unfold coord_char, is_digit, trim_char, is_white_space, is_line_terminator,
    is_break.
  intros H. repeat split; bool_arith.
Qed.

Lemma skip_digits_prefix s :
  exists ds, s = ds ++ skip_digits s /\ Forall (fun c => is_digit c = true) ds.
Proof.
  induction s as [|c t (ds & E & Hds)]; simpl.
  - exists []. split; [reflexivity | constructor].
  - destruct (is_digit c) eqn:Hc.
    + exists (c :: ds). split; [simpl; now f_equal | now constructor].
    + exists []. split; [reflexivity | constructor].
Qed.

Lemma digit_coord_char c : is_digit c = true -> coord_char c = true.
Proof. unfold coord_char. now intros ->. Qed.

Lemma is_degree_chars s :
  is_degree s = true -> Forall (fun c => coord_char c = true) s.
Proof.
  unfold is_degree. intros H.
  assert (Hbody : Forall (fun c => coord_char c = true) (strip_sign s)).
  { destruct (strip_sign s) as [|c body] eqn:Eb; [discriminate|].
    apply andb_true_iff in H as [_ H].
    destruct (skip_digits_prefix (c :: body)) as (ds & E & Hds).
    rewrite E. apply Forall_app. split.
    - eapply Forall_impl; [|exact Hds]. apply digit_coord_char.
    - destruct (skip_digits (c :: body)) as [|d frac]; [constructor|].
      apply andb_true_iff in H as [H Hfrac].
      apply andb_true_iff in H as [Hd _].
      constructor.
      + apply N.eqb_eq in Hd as ->. reflexivity.
      + rewrite forallb_forall in Hfrac. apply Forall_forall.
        intros x Hx. now apply digit_coord_char, Hfrac. }
  destruct s as [|c t]; [constructor|].
  unfold strip_sign in Hbody.
  destruct ((c =? 0x2D) || (c =? 0x2B)) eqn:Hsign; [|assumption].
  constructor; [|assumption].
  unfold coord_char. apply orb_true_iff in Hsign as [Hs|Hs];
    rewrite Hs; now rewrite ?orb_true_r.
Qed.

Lemma well_formed_coord_chars s :
  well_formed_coord s = true ->
  s <> [] /\ Forall (fun c => coord_char c = true) s.
Proof.
  unfold well_formed_coord, split_on. intros H.
  destruct (split_when (fun c => c =? 0x2C) s) as [|lat [|lon [|x r]]] eqn:E;
    try discriminate.
  apply andb_true_iff in H as [Hlat Hlon].
  apply split_when_two in E as (c & Hc & -> & _ & _).
  apply N.eqb_eq in Hc as ->.
  split; [now destruct lat|].
  apply Forall_app. split; [now apply is_degree_chars|].
  constructor; [reflexivity | now apply is_degree_chars].
Qed.

Lemma well_formed_coord_plain s :
  well_formed_coord s = true -> plain_line s /\ ascii_only s.
Proof.
  intros H. apply well_formed_coord_chars in H as [Hne Hall].
  repeat split.
  - assumption.
  - apply trim_clean. eapply Forall_impl; [|exact Hall].
    intros c Hc. now apply coord_char_plain in Hc.
  - eapply Forall_impl; [|exact Hall].
    intros c Hc. now apply coord_char_plain in Hc.
  - eapply Forall_impl; [|exact Hall].
    intros c Hc. now apply coord_char_plain in Hc.
Qed.

End CoordinateFacts.

(** ** The component: request, view and transitions *)

Module AppFacts.
Import Js Url Dom App JsFacts UrlFacts.

Lemma fold_append name l p0 :
  fold_left (fun params c => append name c params) l p0
  = p0 ++ map (fun c => (name, c)) l.
Proof.
  revert p0. induction l as [|c l IH]; intros p0; simpl.
  - now rewrite app_nil_r.
  - rewrite IH. unfold append. now rewrite <- app_assoc.
Qed.

(** The [params] object holds the provider first, then one [coords]
    pair per element of [coordsList], in order. *)
Lemma fetch_params_eq st :
  fetch_params st
  = (lit "provider", provider st)
      :: map (fun c => (lit "coords", c)) (coordsList (coordsText st)).
Proof. unfold fetch_params. now rewrite fold_append. Qed.

Lemma join_cons_map {A} sep (f : A -> jsstring) x l :
  join sep (x :: map f l) = x ++ flat_map (fun a => sep :: f a) l.
Proof.
  revert x. induction l as [|a l IH]; intros x.
  - simpl. now rewrite app_nil_r.
  - change (join sep (x :: map f (a :: l)))
      with (x ++ sep :: join sep (f a :: map f l)).
    now rewrite IH.
Qed.

Lemma encode_component_ascii_plain s :
  Forall (fun c => unreserved c = true) s -> ascii_only s ->
  encode_component s = s.
Proof.
  intros Hu Ha. unfold encode_component. rewrite (utf8_encode_ascii s Ha).
  clear Ha. induction Hu as [|c t Hc _ IH]; [reflexivity|].
  simpl. unfold percent_encode_byte at 1. rewrite Hc.
  destruct (N.eqb_spec c 0x20) as [->|_]; [discriminate|].
  simpl. now f_equal.
Qed.

(** The query string written out. *)
Lemma fetch_query_eq st :
  toString (fetch_params st)
  = lit "provider=" ++ encode_component (provider st)
      ++ flat_map (fun c => lit "&coords=" ++ encode_component c)
                  (coordsList (coordsText st)).
Proof.
  rewrite fetch_params_eq. unfold toString, join_amp.
  change (map serialize_pair
            ((lit "provider", provider st)
               :: map (fun c => (lit "coords", c)) (coordsList (coordsText st))))
    with (serialize_pair (lit "provider", provider st)
            :: map serialize_pair
                 (map (fun c => (lit "coords", c)) (coordsList (coordsText st)))).
  rewrite map_map, join_cons_map.
  unfold serialize_pair. simpl fst. simpl snd.
  change (encode_component (lit "provider")) with (lit "provider").
  change (encode_component (lit "coords")) with (lit "coords").
  rewrite <- app_assoc. reflexivity.
Qed.

Lemma well_formed_coordsList text :
  well_formed text -> Forall well_formed (coordsList text).
Proof.
  intros H. unfold coordsList, split_breaks.
  apply Forall_forall. intros c Hc.
  apply filter_In in Hc as [Hc _]. apply in_map_iff in Hc as (l & <- & Hl).
  apply well_formed_trim.
  pose proof (well_formed_split is_break text H) as Hs.
  rewrite Forall_forall in Hs. now apply Hs.
Qed.

Lemma well_formed_fetch_params st :
  well_formed (provider st) -> well_formed (coordsText st) ->
  Forall well_formed_pair (fetch_params st).
Proof.
  intros Hp Ht. rewrite fetch_params_eq. constructor.
  - split; [apply ascii_only_well_formed; repeat constructor | exact Hp].
  - apply Forall_map. eapply Forall_impl; [|apply well_formed_coordsList, Ht].
    intros c Hc. split; [apply ascii_only_well_formed; repeat constructor | exact Hc].
Qed.

(** *** The rendered tree *)

Lemma rows_descendants tag i rs :
  String.eqb "tr" tag = false -> String.eqb "td" tag = false ->
  flat_map (descendants tag) (mapi_from table_row i rs) = [].
Proof.
  intros Htr Htd. revert i. induction rs as [|r rs IH]; intros i; [reflexivity|].
  cbn [mapi_from flat_map]. rewrite IH.
  unfold table_row, td, cell. cbn [descendants flat_map app].
  rewrite Htr, Htd.
  destruct (Reading.temperature_c r), (Reading.humidity_pct r),
    (Reading.pressure_hpa r), (Reading.wind_speed_ms r),
    (Reading.wind_direction_deg r); reflexivity.
Qed.

Lemma row_is_row r i : descendants "tr" (table_row r i) = [table_row r i].
Proof.
  unfold table_row, td, cell.
  destruct (Reading.temperature_c r), (Reading.humidity_pct r),
    (Reading.pressure_hpa r), (Reading.wind_speed_ms r),
    (Reading.wind_direction_deg r); reflexivity.
Qed.

Lemma rows_are_rows i rs :
  flat_map (descendants "tr") (mapi_from table_row i rs) = mapi_from table_row i rs.
Proof.
  revert i. induction rs as [|r rs IH]; intros i; [reflexivity|].
  cbn [mapi_from flat_map]. now rewrite IH, row_is_row.
Qed.

Lemma banner_descendants tag e :
  String.eqb "div" tag = false -> descendants tag (error_banner e) = [].
Proof.
  intros H. destruct e as [e|]; [|reflexivity]. unfold error_banner.
  destruct (truthy e); [|reflexivity].
  cbn [descendants flat_map app]. now rewrite H.
Qed.

Lemma table_descendants tag rs :
  String.eqb "div" tag = false -> String.eqb "table" tag = false ->
  String.eqb "thead" tag = false -> String.eqb "tbody" tag = false ->
  String.eqb "tr" tag = false -> String.eqb "th" tag = false ->
  String.eqb "td" tag = false ->
  descendants tag (readings_table rs) = [].
Proof.
  intros Hdiv Htable Hthead Htbody Htr Hth Htd.
  destruct rs as [rs|]; [|reflexivity].
  unfold readings_table, table_head, th, mapi.
  cbn [descendants flat_map app].
  rewrite Hdiv, Htable, Hthead, Htbody, Htr, Hth.
  now rewrite rows_descendants.
Qed.

(** The button is disabled exactly while [loading] is set. *)
Lemma button_disabled_loading st :
  fetch_button_disabled (view st) = loading st.
Proof.
  unfold fetch_button_disabled, view.
  cbn [descendants flat_map app String.eqb Ascii.eqb Bool.eqb].
  rewrite banner_descendants, table_descendants by reflexivity.
  cbn [app existsb is_disabled attrs_of].
  destruct (loading st); reflexivity.
Qed.

(** No provider selector, nor any other input, is rendered: the
    controls are the textarea and the button. *)
Lemma no_selector_rendered st :
  descendants "select" (view st) = [] /\ descendants "input" (view st) = []
  /\ descendants "option" (view st) = [].
Proof.
  unfold view. cbn [descendants flat_map app String.eqb Ascii.eqb Bool.eqb].
  rewrite !banner_descendants, !table_descendants by reflexivity.
  repeat split.
Qed.

Lemma header_cells_of_table st rs :
  readings st = Some rs -> header_cells (view st) = table_head.
Proof.
  intros H. unfold header_cells, view. rewrite H.
  cbn [descendants flat_map app String.eqb Ascii.eqb Bool.eqb].
  rewrite banner_descendants by reflexivity.
  unfold readings_table, mapi.
  cbn [descendants flat_map app String.eqb Ascii.eqb Bool.eqb].
  rewrite rows_descendants by reflexivity.
  reflexivity.
Qed.

Lemma body_rows_of_table st rs :
  readings st = Some rs -> body_rows (view st) = mapi table_row rs.
Proof.
  intros H. unfold body_rows, view. rewrite H.
  cbn [descendants flat_map app String.eqb Ascii.eqb Bool.eqb].
  rewrite banner_descendants by reflexivity.
  unfold readings_table, mapi, table_head, th.
  cbn [descendants flat_map app String.eqb Ascii.eqb Bool.eqb].
  rewrite (rows_descendants "tbody") by reflexivity.
  cbn [descendants flat_map app String.eqb Ascii.eqb Bool.eqb].
  rewrite rows_are_rows. now rewrite !app_nil_r.
Qed.

Lemma no_table_without_readings st :
  readings st = None -> descendants "table" (view st) = [].
Proof.
  intros H. unfold view. rewrite H.
  cbn [descendants flat_map app String.eqb Ascii.eqb Bool.eqb readings_table].
  now rewrite banner_descendants.
Qed.

Lemma row_cells_of_row r idx :
  row_cells (table_row r idx)
  = [ cell (Reading.temperature_c r); cell (Reading.humidity_pct r);
      cell (Reading.pressure_hpa r); cell (Reading.wind_speed_ms r);
      cell (Reading.wind_direction_deg r) ].
Proof.
  unfold row_cells, table_row, td, cell.
  destruct (Reading.temperature_c r), (Reading.humidity_pct r),
    (Reading.pressure_hpa r), (Reading.wind_speed_ms r),
    (Reading.wind_direction_deg r); reflexivity.
Qed.

Lemma mapi_from_length {A B} (f : A -> nat -> B) i xs :
  List.length (mapi_from f i xs) = List.length xs.
Proof. revert i. induction xs; intros; simpl; auto. Qed.

Lemma mapi_from_nth {A B} (f : A -> nat -> B) i xs k :
  nth_error (mapi_from f i xs) k
  = option_map (fun x => f x (i + k)%nat) (nth_error xs k).
Proof.
  revert i k. induction xs as [|x xs IH]; intros i k.
  - now destruct k.
  - destruct k as [|k]; simpl.
    + now rewrite Nat.add_0_r.
    + rewrite IH. now rewrite Nat.add_succ_r.
Qed.

End AppFacts.

(** ** The transition system keeps its shape *)

Module PageFacts.
Import Js Url Dom App JsFacts UrlFacts AppFacts.

Section Run.

Variable env : option jsstring.

Lemma start_consistent : consistent start.
Proof. repeat split. now left. Qed.

Lemma resume_idle o st : fetching st -> idle (fetchWeather_resume o st).
Proof.
  intros (_ & He & Hr). split; [reflexivity|].
  destruct o; simpl; [now left | now right].
Qed.

Lemma begin_fetching st : fetching (fst (fetchWeather_begin env st)).
Proof. repeat split. Qed.

Lemma step_consistent p ev : consistent p -> consistent (step env p ev).
Proof.
  intros [Hprov Hshape]. destruct ev as [text| |i o]; simpl.
  - split; [exact Hprov|]. simpl.
    destruct (pending p) as [|rq [|rq' rest]]; [| |contradiction].
    + destruct Hshape as [Hl Hx]. now split.
    + destruct Hshape as (Hl & He & Hr). now repeat split.
  - rewrite button_disabled_loading.
    destruct (loading (ui p)) eqn:Hl; [now split|].
    split; [exact Hprov|]. simpl.
    destruct (pending p) as [|rq [|rq' rest]]; [| |contradiction].
    + simpl. now repeat split.
    + destruct Hshape as (Hl' & _). congruence.
  - destruct (pending p) as [|rq [|rq' rest]] eqn:Hp; [| |contradiction].
    + destruct i; simpl; now split; [|rewrite Hp].
    + destruct i as [|i]; simpl.
      * split; [destruct o; exact Hprov|]. simpl.
        now apply resume_idle.
      * destruct i; simpl; (split; [exact Hprov | now rewrite Hp]).
Qed.

Lemma reachable_consistent p : reachable env p -> consistent p.
Proof.
  induction 1 as [|p ev _ IH]; [apply start_consistent|].
  now apply step_consistent.
Qed.

Lemma reachable_sent_by_form p : reachable env p -> sent_by_form env p.
Proof.
  induction 1 as [|p ev Hr IH]; [constructor|].
  apply reachable_consistent in Hr as [Hprov _].
  unfold sent_by_form in *. destruct ev as [text| |i o]; simpl.
  - exact IH.
  - destruct (fetch_button_disabled (view (ui p))); [exact IH|].
    simpl. apply Forall_app. split; [exact IH|].
    constructor; [|constructor]. now exists (ui p).
  - destruct (nth_error (pending p) i); exact IH.
Qed.

(** Whatever the user and the network do, in whatever order, the page
    they arrive at is a reachable one. *)
Lemma run_reachable evs p : reachable env p -> reachable env (run env evs p).
Proof.
  revert p. induction evs as [|ev evs IH]; intros p Hp; [exact Hp|].
  apply IH. now apply reach_step.
Qed.

(** A click on the enabled button records exactly one new request. *)
Lemma click_sends_one p :
  fetch_button_disabled (view (ui p)) = false ->
  sent (step env p Click) = sent p ++ [Get (fetch_url env (ui p))]
  /\ pending (step env p Click) = pending p ++ [Get (fetch_url env (ui p))].
Proof. intros H. simpl. rewrite H. now split. Qed.

Lemma settle_sends_none p i o : sent (step env p (Settle i o)) = sent p.
Proof. simpl. now destruct (nth_error (pending p) i). Qed.

Lemma typed_sends_none p text : sent (step env p (Typed text)) = sent p.
Proof. reflexivity. Qed.

End Run.

End PageFacts.

(** ** The endpoint's side of a request *)

Module EndpointFacts.
Import Js Url Dom App Endpoint JsFacts UrlFacts AppFacts.

Lemma name_eqb_refl a : name_eqb a a = true.
Proof. unfold name_eqb. now destruct (list_eq_dec N.eq_dec a a). Qed.

Lemma name_eqb_neq a b : a <> b -> name_eqb a b = false.
Proof. intros H. unfold name_eqb. now destruct (list_eq_dec N.eq_dec a b). Qed.

Lemma coords_pairs_received l :
  map snd (filter (fun nv => name_eqb (fst nv) (lit "coords"))
                  (map wire_pair (map (fun c => (lit "coords", c)) l)))
  = map utf8_encode l.
Proof.
  induction l as [|c l IH]; [reflexivity|].
  cbn [map]. unfold wire_pair at 1. cbn [fst snd filter].
  change (utf8_encode (lit "coords")) with (lit "coords").
  rewrite name_eqb_refl. cbn [map snd]. now rewrite IH.
Qed.

(** The endpoint receives the lines of [coordsList], as UTF-8, in
    their order, and nothing else as a coordinate. *)
Lemma coords_received_fetch st :
  well_formed (provider st) -> well_formed (coordsText st) ->
  coords_received (toString (fetch_params st))
  = map utf8_encode (coordsList (coordsText st)).
Proof.
  intros Hp Ht. unfold coords_received.
  rewrite parse_query_toString by now apply well_formed_fetch_params.
  rewrite fetch_params_eq. cbn [map]. unfold wire_pair at 1. cbn [fst snd filter].
  change (utf8_encode (lit "provider")) with (lit "provider").
  rewrite name_eqb_neq by discriminate.
  apply coords_pairs_received.
Qed.

(** Readings that answer the received coordinates in order give rows
    that answer the lines in order. *)
Lemma in_order_rows answers lines :
  forall rs i,
    in_order answers (map utf8_encode lines) rs ->
    in_order (row_answers answers) lines (mapi_from table_row i rs).
Proof.
  induction lines as [|line lines IH]; intros rs i H; cbn [map] in H.
  - inversion H; subst. constructor.
  - inversion H; subst.
    + cbn [mapi_from]. apply in_order_answer; [|now apply IH].
      exists r, i. now split.
    + apply in_order_skip. now apply IH.
Qed.

End EndpointFacts.

(** ** The Browser Form *)

Module BrowserForm.
Import Js Url Dom App Coordinate Spec Sample.
Import JsFacts UrlFacts CoordinateFacts AppFacts PageFacts.

(** C1, as the code has it: after a successful response the form
    renders exactly one table; its header is the five columns
    T (°C), Hum (%), Press (hPa), Wind (m/s), Dir (°); its body has one
    row per reading of the response, and each row holds the cells of
    temperature_c, humidity_pct, pressure_hpa, wind_speed_ms and
    wind_direction_deg of its reading, in that order. *)
Theorem table_shows_five_fields (st : State) (resp_data : list Reading.t) :
  List.length (descendants "table" (view (fetchWeather_resume (Resolved resp_data) st))) = 1%nat
  /\ header_cells (view (fetchWeather_resume (Resolved resp_data) st)) = table_head
  /\ List.length table_head = 5%nat
  /\ List.length (body_rows (view (fetchWeather_resume (Resolved resp_data) st)))
     = List.length resp_data
  /\ body_rows (view (fetchWeather_resume (Resolved resp_data) st))
     = mapi table_row resp_data
  /\ forall r idx, row_cells (table_row r idx) = map cell (displayed_fields r).
Proof.
  set (st' := fetchWeather_resume (Resolved resp_data) st).
  assert (Hr : readings st' = Some resp_data) by reflexivity.
  repeat split.
  - unfold view. rewrite Hr.
    cbn [descendants flat_map app String.eqb Ascii.eqb Bool.eqb].
    rewrite banner_descendants by reflexivity.
    unfold readings_table, mapi, table_head, th.
    cbn [descendants flat_map app String.eqb Ascii.eqb Bool.eqb].
    now rewrite rows_descendants.
  - now apply header_cells_of_table with resp_data.
  - rewrite (body_rows_of_table st' resp_data Hr). apply mapi_from_length.
  - now apply body_rows_of_table.
  - intros r idx. apply row_cells_of_row.
Qed.

(** C1, against the claim as stated: the table of a one-reading
    response has five columns where the specification lists ten
    fields, and two readings that differ in provider, condition code
    and condition text are rendered identically. *)
Lemma table_lacks_listed_columns :
  List.length (header_cells (view (fetchWeather_resume (Resolved [san_francisco]) initial)))
    = 5%nat
  /\ List.length normalized_scalar_fields = 10%nat
  /\ Forall (fun row => List.length (row_cells row) = 5%nat)
            (body_rows (view (fetchWeather_resume (Resolved [san_francisco]) initial)))
  /\ Reading.provider san_francisco <> Reading.provider san_francisco_weatherapi
  /\ view (fetchWeather_resume (Resolved [san_francisco]) initial)
     = view (fetchWeather_resume (Resolved [san_francisco_weatherapi]) initial).
Proof.
  repeat split.
  - repeat constructor.
  - discriminate.
Qed.

(** C2, as the code has it: the form does not look at what a line
    says.  Whatever the text, a click on the enabled button sends one
    request, and every line whose trimmed text is not empty is among
    its [coords] parameters, trimmed and otherwise unchanged. *)
Theorem lines_sent_unvalidated (env : option jsstring) (p : Page) (line : jsstring) :
  fetch_button_disabled (view (ui p)) = false ->
  In line (split_breaks (coordsText (ui p))) ->
  trim line <> [] ->
  In (lit "coords", trim line) (fetch_params (ui p))
  /\ sent (step env p Click)
     = sent p ++ [Get (BACKEND_BASE env ++ lit "/api/weather?"
                         ++ toString (fetch_params (ui p)))].
Proof.
  intros Hb Hin Hne. split.
  - rewrite fetch_params_eq. right.
    apply in_map. unfold coordsList. apply filter_In. split.
    + now apply in_map.
    + now destruct (trim line).
  - now apply click_sends_one.
Qed.

Lemma lines_sent_unvalidated_witness :
  well_formed_coord (lit "not,a,coord") = false
  /\ In (lit "coords", trim (lit "not,a,coord")) (fetch_params (ui malformed_page)).
Proof.
  split; [reflexivity|].
  apply (lines_sent_unvalidated None malformed_page (lit "not,a,coord")).
  - reflexivity.
  - left. reflexivity.
  - discriminate.
Defined.

(** C2, against the claim as stated: the line "not,a,coord" is not a
    well-formed coordinate, and a click sends it to the endpoint. *)
Lemma malformed_coordinate_is_sent :
  well_formed_coord (lit "not,a,coord") = false
  /\ sent (step None malformed_page Click)
     = [Get (lit "http://127.0.0.1:8010/api/weather?provider=openmeteo&coords=not%2Ca%2Ccoord")]
  /\ parse_query (lit "provider=openmeteo&coords=not%2Ca%2Ccoord")
     = [(lit "provider", lit "openmeteo"); (lit "coords", lit "not,a,coord")].
Proof. repeat split. Qed.

(** C3: a click on the enabled button sends exactly one request, a
    GET of [BACKEND_BASE/api/weather?] followed by the serialized
    parameters, and settling it sends nothing more.  The parameters are
    the provider of the state under the name [provider], then one
    [coords] pair per line of the text that is not empty once trimmed,
    in the order of the lines.  The receiver's parse of the query
    string gives these pairs back; when the text is well-formed
    "lat,lon" lines joined by line feeds, it gives back exactly those
    strings. *)
Theorem fetch_sends_one_get (env : option jsstring) (p : Page) :
  well_formed (provider (ui p)) ->
  well_formed (coordsText (ui p)) ->
  fetch_button_disabled (view (ui p)) = false ->
  sent (step env p Click)
  = sent p ++ [Get (BACKEND_BASE env ++ lit "/api/weather?"
                      ++ toString (fetch_params (ui p)))]
  /\ (forall i o,
        sent (step env (step env p Click) (Settle i o)) = sent (step env p Click))
  /\ fetch_params (ui p)
     = (lit "provider", provider (ui p))
         :: map (fun c => (lit "coords", c))
                (filter truthy (map trim (split_breaks (coordsText (ui p)))))
  /\ parse_query (toString (fetch_params (ui p))) = map wire_pair (fetch_params (ui p))
  /\ (forall ls,
        Forall (fun l => well_formed_coord l = true) ls ->
        coordsText (ui p) = join_lf ls ->
        parse_query (toString (fetch_params (ui p)))
        = (lit "provider", utf8_encode (provider (ui p)))
            :: map (fun l => (lit "coords", l)) ls).
Proof.
  intros Hprov Htext Hbtn.
  assert (Hparse : parse_query (toString (fetch_params (ui p)))
                   = map wire_pair (fetch_params (ui p)))
    by now apply parse_query_toString, well_formed_fetch_params.
  repeat split.
  - now apply click_sends_one.
  - intros i o. apply settle_sends_none.
  - apply fetch_params_eq.
  - exact Hparse.
  - intros ls Hls Etext. rewrite Hparse, fetch_params_eq.
    unfold coordsList. rewrite Etext, split_trim_filter_join.
    + cbn [map]. f_equal. rewrite map_map. apply map_ext_in.
      intros l Hl. rewrite Forall_forall in Hls.
      destruct (well_formed_coord_plain l (Hls l Hl)) as [_ Ha].
      unfold wire_pair. cbn [fst snd]. now rewrite (utf8_encode_ascii l Ha).
    + eapply Forall_impl; [|exact Hls].
      intros l Hl. now apply well_formed_coord_plain.
Qed.

Lemma fetch_sends_one_get_witness :
  sent (step None start Click)
  = [Get (lit "http://127.0.0.1:8010/api/weather?provider=openmeteo&coords=37.7749%2C-122.4194&coords=40.7128%2C-74.0060")]
  /\ parse_query (toString (fetch_params (ui start)))
     = [ (lit "provider", lit "openmeteo");
         (lit "coords", lit "37.7749,-122.4194");
         (lit "coords", lit "40.7128,-74.0060") ].
Proof.
  assert (Hprov : well_formed (provider (ui start)))
    by (apply ascii_only_well_formed; repeat constructor).
  assert (Htext : well_formed (coordsText (ui start)))
    by (apply ascii_only_well_formed; repeat constructor).
  destruct (fetch_sends_one_get None start Hprov Htext eq_refl)
    as (Hsent & _ & _ & _ & Hlines).
  split; [exact Hsent|].
  apply (Hlines [lit "37.7749,-122.4194"; lit "40.7128,-74.0060"]).
  - repeat constructor.
  - reflexivity.
Defined.

(** C4: when the request fails, the form shows, inline under the
    button, the text "Error: " followed by the [error] text of the
    endpoint's body when the rejection carries a non-empty one, and
    otherwise by the failure's own message. *)
Theorem failed_fetch_shows_error (st : State) (e : option Thrown) (msg : jsstring) :
  (endpoint_error e = Some msg /\ msg <> [])
  \/ ((endpoint_error e = None \/ endpoint_error e = Some [])
      /\ transport_message e = Some msg /\ msg <> []) ->
  error (fetchWeather_resume (Rejected e) st) = Some msg
  /\ In (Element "div" [style "color: red; marginTop: 12"]
                 [Text (lit "Error: "); Text msg])
        (children_of (view (fetchWeather_resume (Rejected e) st)))
  /\ descendants "table" (view (fetchWeather_resume (Rejected e) st))
     = descendants "table" (view st).
Proof.
  intros H.
  assert (Etext : error_text e = msg).
  { unfold error_text.
    destruct H as [[He Hm] | [[He | He] [Ht Hm]]]; rewrite He; simpl.
    - now destruct msg.
    - rewrite Ht. simpl. now destruct msg.
    - rewrite Ht. simpl. now destruct msg. }
  assert (Herr : error (fetchWeather_resume (Rejected e) st) = Some msg)
    by (simpl; now rewrite Etext).
  repeat split.
  - exact Herr.
  - unfold view. rewrite Herr. cbn [children_of error_banner].
    destruct msg as [|c m]; [now destruct H as [[_ ?] | [_ [_ ?]]]|].
    cbn [truthy]. right. right. now left.
  - unfold view.
    cbn [descendants flat_map app String.eqb Ascii.eqb Bool.eqb].
    now rewrite !banner_descendants by reflexivity.
Qed.

Lemma failed_fetch_shows_error_witness :
  error (fetchWeather_resume (Rejected bad_request) initial)
    = Some (lit "Invalid coords")
  /\ error (fetchWeather_resume (Rejected network_error) initial)
    = Some (lit "Network Error").
Proof.
  split.
  - apply (failed_fetch_shows_error initial bad_request (lit "Invalid coords")).
    left. split; [reflexivity | discriminate].
  - apply (failed_fetch_shows_error initial network_error (lit "Network Error")).
    right. repeat split; [now left | discriminate].
Defined.

(** C5: in every page the form reaches, no provider selector (nor any
    other input or option) is rendered, the provider in the state is
    'openmeteo', and every request sent carries [provider=openmeteo]
    as its first parameter, followed only by [coords] parameters. *)
Theorem provider_fixed_and_hidden (env : option jsstring) (p : Page) :
  reachable env p ->
  provider (ui p) = lit "openmeteo"
  /\ descendants "select" (view (ui p)) = []
  /\ descendants "input" (view (ui p)) = []
  /\ descendants "option" (view (ui p)) = []
  /\ Forall (fun rq => exists cs,
                url_of rq
                = BACKEND_BASE env ++ lit "/api/weather?provider=openmeteo"
                    ++ flat_map (fun c => lit "&coords=" ++ encode_component c) cs)
            (sent p).
Proof.
  intros Hr.
  destruct (no_selector_rendered (ui p)) as (Hsel & Hinp & Hopt).
  repeat split; try assumption.
  - now apply (reachable_consistent env).
  - eapply Forall_impl; [|apply (reachable_sent_by_form env p Hr)].
    intros rq (st & Hprov & ->). cbn [url_of]. unfold fetch_url.
    rewrite fetch_query_eq, Hprov.
    now exists (coordsList (coordsText st)).
Qed.

Lemma provider_fixed_and_hidden_witness :
  provider (ui (step None malformed_page Click)) = lit "openmeteo".
Proof.
  apply (provider_fixed_and_hidden None (step None malformed_page Click)).
  apply reach_step. apply reach_step. apply reach_start.
Defined.

(** C6, as the code has it: the base URL is the VITE_BACKEND_BASE
    value of the build when that is defined and not empty, and the
    built-in 'http://127.0.0.1:8010' otherwise; either way it does not
    depend on the state, and every request the form sends has a URL
    that begins with it. *)
Theorem backend_base_prefixes_requests (env : option jsstring) :
  (forall b, env = Some b -> b <> [] -> BACKEND_BASE env = b)
  /\ (env = None \/ env = Some [] -> BACKEND_BASE env = lit "http://127.0.0.1:8010")
  /\ (forall st, exists rest,
        url_of (snd (fetchWeather_begin env st)) = BACKEND_BASE env ++ rest)
  /\ (forall p, reachable env p ->
        Forall (fun rq => exists rest, url_of rq = BACKEND_BASE env ++ rest) (sent p)).
Proof.
  repeat split.
  - intros b -> Hb. unfold BACKEND_BASE. simpl. now destruct b.
  - now intros [-> | ->].
  - intros st. now eexists.
  - intros p Hr.
    eapply Forall_impl; [|apply (reachable_sent_by_form env p Hr)].
    intros rq (st & _ & ->). now eexists.
Qed.

Lemma backend_base_prefixes_requests_witness :
  BACKEND_BASE (Some (lit "https://weather.example.org")) = lit "https://weather.example.org"
  /\ BACKEND_BASE None = lit "http://127.0.0.1:8010".
Proof.
  split.
  - apply (proj1 (backend_base_prefixes_requests
                    (Some (lit "https://weather.example.org"))) _ eq_refl).
    discriminate.
  - apply (proj1 (proj2 (backend_base_prefixes_requests None))). now left.
Defined.

(** C6, against the claim as stated: with VITE_BACKEND_BASE not
    defined, or defined as the empty string, the base URL in use is
    not that value but 'http://127.0.0.1:8010', and the request goes
    there. *)
Lemma backend_base_falls_back :
  BACKEND_BASE None = lit "http://127.0.0.1:8010"
  /\ BACKEND_BASE (Some []) <> []
  /\ ~ (forall env, env = Some (BACKEND_BASE env))
  /\ sent (step None malformed_page Click)
     = [Get (lit "http://127.0.0.1:8010/api/weather?provider=openmeteo&coords=not%2Ca%2Ccoord")].
Proof.
  repeat split.
  - discriminate.
  - intros H. specialize (H None). discriminate.
Qed.

(** Whatever the response holds, the k-th row of the table is the row
    of its k-th reading: as many rows as readings, in the order of
    the array. *)
Theorem rows_in_response_order (st : State) (resp_data : list Reading.t) (k : nat) :
  nth_error (body_rows (view (fetchWeather_resume (Resolved resp_data) st))) k
  = option_map (fun r => table_row r k) (nth_error resp_data k)
  /\ List.length (body_rows (view (fetchWeather_resume (Resolved resp_data) st)))
     = List.length resp_data.
Proof.
  rewrite (body_rows_of_table (fetchWeather_resume (Resolved resp_data) st)
             resp_data eq_refl).
  split.
  - unfold mapi. now rewrite mapi_from_nth.
  - apply mapi_from_length.
Qed.

(** C8: a row is built for every reading, and where the k-th of the
    five displayed fields is null, the k-th cell of the row holds the
    empty string, which is not the text 'null'. *)
Theorem null_field_renders_empty (r : Reading.t) (idx k : nat) :
  nth_error (displayed_fields r) k = Some None ->
  nth_error (row_cells (table_row r idx)) k = Some (Text [])
  /\ Text [] <> Text (lit "null").
Proof.
  intros H. split; [|discriminate].
  rewrite row_cells_of_row.
  change (nth_error (map cell (displayed_fields r)) k = Some (cell None)).
  rewrite nth_error_map. now rewrite H.
Qed.

Lemma null_field_renders_empty_witness :
  nth_error (row_cells (table_row san_francisco 0)) 2 = Some (Text [])
  /\ nth_error (row_cells (table_row san_francisco 0)) 4 = Some (Text []).
Proof.
  split.
  - apply (null_field_renders_empty san_francisco 0 2). reflexivity.
  - apply (null_field_renders_empty san_francisco 0 4). reflexivity.
Defined.

(** C9: a fetch starts by clearing both [error] and [readings]; when
    it settles it changes at most one of the two; and in every page
    the form reaches at most one of them is set, so the error line and
    the table are never rendered together. *)
Theorem error_and_readings_exclusive (env : option jsstring) (p : Page) :
  reachable env p ->
  (error (ui p) = None \/ readings (ui p) = None)
  /\ (error_banner (error (ui p)) = Nothing
      \/ readings_table (readings (ui p)) = Nothing)
  /\ (error (ui p) <> None -> descendants "table" (view (ui p)) = [])
  /\ (forall st, error (fst (fetchWeather_begin env st)) = None
                 /\ readings (fst (fetchWeather_begin env st)) = None)
  /\ (forall o st, error (fetchWeather_resume o st) = error st
                   \/ readings (fetchWeather_resume o st) = readings st).
Proof.
  intros Hr.
  assert (H : error (ui p) = None \/ readings (ui p) = None).
  { destruct (reachable_consistent env p Hr) as [_ Hshape].
    destruct (pending p) as [|rq [|rq' rest]]; [| |contradiction].
    - apply Hshape.
    - left. apply Hshape. }
  split; [exact H|].
  split; [destruct H as [-> | ->]; [now left | now right]|].
  split; [|split].
  - intros He. apply no_table_without_readings.
    now destruct H as [H | H].
  - intros st. now split.
  - intros o st. destruct o; [now left | now right].
Qed.

Lemma error_and_readings_exclusive_witness :
  error (ui (step None (step None start Click) (Settle 0 (Resolved [san_francisco]))))
    = None
  \/ readings (ui (step None (step None start Click) (Settle 0 (Resolved [san_francisco]))))
    = None.
Proof.
  apply (error_and_readings_exclusive None
           (step None (step None start Click) (Settle 0 (Resolved [san_francisco])))).
  apply reach_step. apply reach_step. apply reach_start.
Defined.

(** C10: in every page the form reaches, the button is disabled
    exactly when [loading] is set, which is exactly when a request is
    pending; at most one request is pending; a click while loading
    changes nothing; and settling the pending request, with a response
    or with a failure, turns [loading] off and leaves none pending. *)
Theorem one_request_in_flight (env : option jsstring) (p : Page) :
  reachable env p ->
  fetch_button_disabled (view (ui p)) = loading (ui p)
  /\ (List.length (pending p) <= 1)%nat
  /\ (loading (ui p) = true <-> pending p <> [])
  /\ (loading (ui p) = true -> step env p Click = p)
  /\ (forall i o, nth_error (pending p) i <> None ->
        loading (ui (step env p (Settle i o))) = false
        /\ pending (step env p (Settle i o)) = [])
  /\ (forall o st, loading (fetchWeather_resume o st) = false).
Proof.
  intros Hr. destruct (reachable_consistent env p Hr) as [_ Hshape].
  split; [apply button_disabled_loading|].
  destruct (pending p) as [|rq [|rq' rest]] eqn:Hp; [| |contradiction].
  - destruct Hshape as [Hl _].
    split; [simpl; lia|]. split; [split; congruence|].
    split; [congruence|]. split; [|reflexivity].
    intros i o Hi. now destruct i.
  - destruct Hshape as (Hl & _ & _).
    split; [simpl; lia|]. split; [split; [discriminate | now intros _]|].
    split; [|split; [|reflexivity]].
    + intros _. cbn [step]. now rewrite button_disabled_loading, Hl.
    + intros i o Hi. cbn [step]. rewrite Hp.
      destruct i as [|i]; [now split|].
      now destruct i.
Qed.

Lemma one_request_in_flight_witness :
  fetch_button_disabled (view (ui (step None start Click))) = true
  /\ step None (step None start Click) Click = step None start Click
  /\ loading (ui (step None (step None start Click)
                        (Settle 0 (Rejected network_error)))) = false.
Proof.
  destruct (one_request_in_flight None (step None start Click)
              (reach_step None start Click (reach_start None)))
    as (Hb & _ & _ & Hclick & Hsettle & _).
  split; [exact Hb|].
  split; [apply Hclick; reflexivity|].
  apply (Hsettle 0%nat (Rejected network_error)). discriminate.
Defined.

(** C7: the rows follow the array of the response, and so the input.
    In a reachable page that is not loading, a click sends the lines
    of the text as the [coords] values of one request; when the
    response carries readings that answer those values in input order,
    as the endpoint's responses do, the table shows its k-th reading in
    its k-th row, and the rows, read from top to bottom, answer lines
    of the text taken from first to last. *)
Theorem rows_preserve_input_order
    (answers : list N -> Reading.t -> Prop) (env : option jsstring) (p : Page)
    (resp_data : list Reading.t) :
  reachable env p ->
  loading (ui p) = false ->
  well_formed (coordsText (ui p)) ->
  Endpoint.ok_response answers (toString (fetch_params (ui p))) resp_data ->
  sent (step env p Click)
  = sent p ++ [Get (BACKEND_BASE env ++ lit "/api/weather?"
                      ++ toString (fetch_params (ui p)))]
  /\ Endpoint.coords_received (toString (fetch_params (ui p)))
     = map utf8_encode (coordsList (coordsText (ui p)))
  /\ body_rows (view (ui (step env (step env p Click) (Settle 0 (Resolved resp_data)))))
     = mapi table_row resp_data
  /\ (forall k,
        nth_error
          (body_rows (view (ui (step env (step env p Click)
                                     (Settle 0 (Resolved resp_data)))))) k
        = option_map (fun r => table_row r k) (nth_error resp_data k))
  /\ Endpoint.in_order (Endpoint.row_answers answers)
       (coordsList (coordsText (ui p)))
       (body_rows (view (ui (step env (step env p Click)
                                  (Settle 0 (Resolved resp_data)))))).
Proof.
  intros Hr Hl Htext Hok.
  destruct (reachable_consistent env p Hr) as [Hprov Hshape].
  assert (Hwf : well_formed (provider (ui p)))
    by (rewrite Hprov; apply ascii_only_well_formed; repeat constructor).
  assert (Hpend : pending p = []).
  { destruct (pending p) as [|rq [|rq' rest]]; [reflexivity| |contradiction].
    destruct Hshape as [Hl' _]. congruence. }
  assert (Hbtn : fetch_button_disabled (view (ui p)) = false)
    by now rewrite button_disabled_loading.
  assert (Hrecv := EndpointFacts.coords_received_fetch (ui p) Hwf Htext).
  assert (Hrows :
            body_rows (view (ui (step env (step env p Click)
                                      (Settle 0 (Resolved resp_data)))))
            = mapi table_row resp_data).
  { apply body_rows_of_table. cbn [step]. rewrite Hbtn.
    cbn [fetchWeather_begin pending]. rewrite Hpend. reflexivity. }
  split; [now apply click_sends_one|].
  split; [exact Hrecv|].
  split; [exact Hrows|].
  split.
  - intros k. rewrite Hrows. unfold mapi. now rewrite mapi_from_nth.
  - rewrite Hrows. unfold mapi. apply EndpointFacts.in_order_rows.
    unfold Endpoint.ok_response in Hok. now rewrite Hrecv in Hok.
Qed.

Lemma rows_preserve_input_order_witness :
  Endpoint.in_order (Endpoint.row_answers Journey.sample_answers)
    [lit "37.7749,-122.4194"; lit "40.7128,-74.0060"]
    (body_rows (view (ui (step None (step None start Click)
                               (Settle 0 (Resolved [san_francisco; Journey.new_york])))))).
Proof.
  apply (rows_preserve_input_order Journey.sample_answers None start
           [san_francisco; Journey.new_york]).
  - apply reach_start.
  - reflexivity.
  - apply ascii_only_well_formed. repeat constructor.
  - unfold Endpoint.ok_response.
    rewrite EndpointFacts.coords_received_fetch
      by (apply ascii_only_well_formed; repeat constructor).
    apply Endpoint.in_order_answer; [left; split; reflexivity|].
    apply Endpoint.in_order_answer; [right; split; reflexivity|].
    apply Endpoint.in_order_nil.
Defined.

End BrowserForm.

(** ** More on [trim], [split] and [coordsList] *)

Module LineFacts.
Import Js Url Dom App Observe JsFacts.

Lemma trim_start_head s c t : trim_start s = c :: t -> trim_char c = false.
Proof.
  induction s as [|x s IH]; simpl; [discriminate|].
  destruct (trim_char x) eqn:Hx; [exact IH|].
  intros E. injection E as <- _. exact Hx.
Qed.

Lemma trim_start_blank s : blank s -> trim_start s = [].
Proof. induction 1 as [|c t Hc _ IH]; simpl; [reflexivity|]. now rewrite Hc. Qed.

Lemma trim_start_nil_blank s : trim_start s = [] -> blank s.
Proof.
  induction s as [|c t IH]; simpl; intros H; [constructor|].
  destruct (trim_char c) eqn:Hc; [|discriminate].
  constructor; [exact Hc | now apply IH].
Qed.

Lemma trim_blank s : blank s -> trim s = [].
Proof. intros H. unfold trim, trim_end. now rewrite (trim_start_blank s H). Qed.

Lemma trim_nil_blank s : trim s = [] -> blank s.
Proof.
  unfold trim, trim_end. intros H.
  apply (f_equal (@rev N)) in H. rewrite rev_involutive in H. simpl in H.
  apply trim_start_nil_blank in H. apply Forall_rev in H.
  rewrite rev_involutive in H.
  destruct (trim_start s) as [|c t] eqn:E; [now apply trim_start_nil_blank|].
  apply trim_start_head in E. inversion H; subst. congruence.
Qed.

Lemma Forall_trim_start (P : N -> Prop) s : Forall P s -> Forall P (trim_start s).
Proof.
  intros H. destruct (trim_start_suffix s) as [pre E].
  rewrite E in H. now apply Forall_app in H.
Qed.

Lemma Forall_trim (P : N -> Prop) s : Forall P s -> Forall P (trim s).
Proof.
  intros H. unfold trim, trim_end. apply Forall_rev.
  apply Forall_trim_start. apply Forall_rev. now apply Forall_trim_start.
Qed.

(** [trim] leaves nothing to strip: trimming again changes nothing. *)
Lemma trim_idempotent s : trim (trim s) = trim s.
Proof.
  unfold trim at 2 3, trim_end.
  set (s1 := trim_start s). set (r := trim_start (rev s1)).
  assert (Hr : forall c t, r = c :: t -> trim_char c = false)
    by (intros c t; apply trim_start_head).
  assert (Hhead : forall c t, rev r = c :: t -> trim_char c = false).
  { intros c t E. destruct (trim_start_suffix (rev s1)) as [pre Epre].
    fold r in Epre. apply (f_equal (@rev N)) in Epre.
    rewrite rev_involutive, rev_app_distr, E in Epre.
    apply (trim_start_head s c (t ++ rev pre)). exact Epre. }
  unfold trim, trim_end.
  assert (E1 : trim_start (rev r) = rev r).
  { destruct (rev r) as [|c t] eqn:E; [reflexivity|].
    simpl. now rewrite (Hhead c t eq_refl). }
  rewrite E1, rev_involutive.
  assert (E2 : trim_start r = r).
  { destruct r as [|c t] eqn:E; [reflexivity|].
    simpl. now rewrite (Hr c t eq_refl). }
  now rewrite E2.
Qed.

Lemma Forall_split_when (P : N -> Prop) sep s :
  Forall P s -> Forall (Forall P) (split_when sep s).
Proof.
  induction 1 as [|c t Hc Ht IH]; simpl.
  - repeat constructor.
  - destruct (sep c).
    + constructor; [constructor | assumption].
    + destruct (split_when sep t) as [|p r]; [repeat constructor; assumption|].
      inversion IH; subst. constructor; [constructor|]; assumption.
Qed.

Lemma split_when_pieces sep s :
  Forall (Forall (fun c => sep c = false)) (split_when sep s).
Proof.
  induction s as [|c t IH]; simpl.
  - repeat constructor.
  - destruct (sep c) eqn:Hc.
    + constructor; [constructor | assumption].
    + destruct (split_when sep t) as [|p r]; [repeat constructor; assumption|].
      inversion IH; subst. constructor; [constructor|]; assumption.
Qed.

Lemma split_when_cover (P : N -> Prop) sep s :
  (forall c, sep c = true -> P c) ->
  Forall (Forall P) (split_when sep s) -> Forall P s.
Proof.
  intros Hsep. induction s as [|c t IH]; simpl; intros H; [constructor|].
  destruct (sep c) eqn:Hc.
  - inversion H; subst. constructor; auto.
  - destruct (split_when sep t) as [|p r] eqn:E.
    + now apply split_when_not_nil in E.
    + inversion H as [|? ? Hp Hr]; subst. inversion Hp; subst.
      constructor; [assumption|]. apply IH. now constructor.
Qed.

(** A separator cuts a text into two texts that are split on their own. *)
Lemma split_when_cut sep a c b :
  sep c = true ->
  split_when sep (a ++ c :: b) = split_when sep a ++ split_when sep b.
Proof.
  intros Hc. induction a as [|x a IH]; simpl.
  - now rewrite Hc.
  - destruct (sep x); [now rewrite IH|].
    rewrite IH. destruct (split_when sep a) as [|p r] eqn:E; [|reflexivity].
    now apply split_when_not_nil in E.
Qed.

Lemma break_is_trim_char c : is_break c = true -> trim_char c = true.
Proof.
  unfold is_break, trim_char, is_line_terminator. intros H.
  apply orb_true_iff in H as [H | H]; rewrite H; now rewrite ?orb_true_r.
Qed.

Lemma coordsList_plain text : Forall plain_line (coordsList text).
Proof.
  unfold coordsList, split_breaks. apply Forall_forall. intros c Hc.
  apply filter_In in Hc as [Hc Htruthy].
  apply in_map_iff in Hc as (l & <- & Hl).
  repeat split.
  - now destruct (trim l).
  - apply trim_idempotent.
  - apply Forall_trim.
    pose proof (split_when_pieces is_break text) as Hp.
    rewrite Forall_forall in Hp. now apply Hp.
Qed.

Lemma filter_none {A} (f : A -> bool) l :
  Forall (fun x => f x = false) l -> filter f l = [].
Proof. induction 1 as [|x t Hx _ IH]; simpl; [reflexivity|]. now rewrite Hx. Qed.

Lemma filter_nil_none {A} (f : A -> bool) l :
  filter f l = [] -> Forall (fun x => f x = false) l.
Proof.
  induction l as [|x t IH]; simpl; intros H; [constructor|].
  destruct (f x) eqn:Hx; [discriminate|]. constructor; auto.
Qed.

Lemma coordsList_blank_iff text : coordsList text = [] <-> blank text.
Proof.
  unfold coordsList, split_breaks. split.
  - intros H. apply filter_nil_none in H.
    apply (split_when_cover _ is_break); [apply break_is_trim_char|].
    apply Forall_forall. intros l Hl.
    rewrite Forall_forall in H.
    specialize (H (trim l) (in_map trim _ l Hl)).
    apply trim_nil_blank. now destruct (trim l).
  - intros H. apply filter_none. apply Forall_map.
    eapply Forall_impl; [|apply (Forall_split_when _ is_break text H)].
    intros l Hl. cbv beta. now rewrite (trim_blank l Hl).
Qed.

End LineFacts.

(** ** More on the view and the transitions *)

Module ViewFacts.
Import Js Url Dom App Observe JsFacts UrlFacts AppFacts PageFacts LineFacts.

Lemma or_else_truthy a b : truthy b = true -> truthy (or_else a b) = true.
Proof.
  intros Hb. destruct a as [s|]; simpl; [|exact Hb].
  destruct (truthy s) eqn:Hs; assumption.
Qed.

Lemma error_text_truthy e : truthy (error_text e) = true.
Proof. unfold error_text. now repeat apply or_else_truthy. Qed.

Lemma banner_of_truthy e :
  truthy e = true -> error_banner (Some e) = error_line e.
Proof. intros H. unfold error_banner. now rewrite H. Qed.

Lemma body_rows_by_readings st :
  body_rows (view st)
  = match readings st with
    | Some rs => mapi table_row rs
    | None => []
    end.
Proof.
  destruct (readings st) as [rs|] eqn:H; [now apply body_rows_of_table|].
  unfold body_rows, view. rewrite H.
  cbn [descendants flat_map app String.eqb Ascii.eqb Bool.eqb readings_table].
  now rewrite banner_descendants.
Qed.

Lemma button_label_eq st :
  button_label (view st)
  = [Text (if loading st then lit "Fetching" ++ [0x2026] else lit "Fetch Weather")].
Proof.
  unfold button_label, view.
  cbn [descendants flat_map app String.eqb Ascii.eqb Bool.eqb].
  rewrite banner_descendants, table_descendants by reflexivity.
  reflexivity.
Qed.

Lemma textarea_values_eq st : textarea_values (view st) = [coordsText st].
Proof.
  unfold textarea_values, view.
  cbn [descendants flat_map app String.eqb Ascii.eqb Bool.eqb].
  rewrite banner_descendants, table_descendants by reflexivity.
  reflexivity.
Qed.

Lemma keys_of_rows i rs :
  flat_map (fun n => flat_map key_of (attrs_of n)) (mapi_from table_row i rs)
  = seq i (List.length rs).
Proof.
  revert i. induction rs as [|r rs IH]; intros i; [reflexivity|].
  cbn [mapi_from flat_map]. rewrite IH. reflexivity.
Qed.

Lemma hex_digit_unreserved d : d < 16 -> unreserved (hex_digit d) = true.
Proof.
  intros H.
  assert (E : d = 0 \/ d = 1 \/ d = 2 \/ d = 3 \/ d = 4 \/ d = 5 \/ d = 6
              \/ d = 7 \/ d = 8 \/ d = 9 \/ d = 10 \/ d = 11 \/ d = 12
              \/ d = 13 \/ d = 14 \/ d = 15) by lia.
  repeat (destruct E as [-> | E]; [reflexivity|]). now subst.
Qed.

Lemma percent_encode_byte_safe b :
  byte b -> Forall (fun c => query_safe c = true) (percent_encode_byte b).
Proof.
  unfold byte. intros Hb. unfold percent_encode_byte.
  destruct (N.eqb_spec b 0x20); [repeat constructor|].
  destruct (unreserved b) eqn:Hu.
  - constructor; [|constructor]. unfold query_safe. now rewrite Hu.
  - assert (Hhi : b / 16 < 16) by lia.
    assert (Hlo : b mod 16 < 16) by lia.
    constructor; [reflexivity|].
    constructor; [unfold query_safe; now rewrite (hex_digit_unreserved _ Hhi)|].
    constructor; [unfold query_safe; now rewrite (hex_digit_unreserved _ Hlo)|].
    constructor.
Qed.

Lemma encode_component_safe s :
  well_formed s -> Forall (fun c => query_safe c = true) (encode_component s).
Proof.
  intros H. unfold encode_component. apply Forall_flat_map.
  eapply Forall_impl; [|apply utf8_encode_bytes, H].
  apply percent_encode_byte_safe.
Qed.

Section Run.

Variable env : option jsstring.

Lemma reachable_error_truthy p :
  reachable env p -> forall e, error (ui p) = Some e -> truthy e = true.
Proof.
  induction 1 as [|p ev _ IH]; [discriminate|].
  destruct ev as [text| |i o]; cbn [step].
  - exact IH.
  - destruct (fetch_button_disabled (view (ui p))); [exact IH|].
    simpl. discriminate.
  - destruct (nth_error (pending p) i); [|exact IH].
    destruct o as [d|e']; simpl; [exact IH|].
    intros e E. injection E as <-. apply error_text_truthy.
Qed.

Lemma run_sent_bound evs p :
  (List.length (sent (run env evs p)) <= List.length (sent p) + clicks evs)%nat.
Proof.
  revert p. induction evs as [|ev evs IH]; intros p; [simpl; lia|].
  change (run env (ev :: evs) p) with (run env evs (step env p ev)).
  specialize (IH (step env p ev)).
  destruct ev as [text| |i o].
  - cbn [clicks]. now rewrite typed_sends_none in IH.
  - cbn [clicks step] in *.
    destruct (fetch_button_disabled (view (ui p))); [lia|].
    cbn [fetchWeather_begin sent] in *. rewrite length_app in IH.
    cbn [List.length] in IH. lia.
  - cbn [clicks]. now rewrite settle_sends_none in IH.
Qed.

Lemma run_without_click evs p :
  clicks evs = 0%nat -> sent (run env evs p) = sent p.
Proof.
  revert p. induction evs as [|ev evs IH]; intros p H; [reflexivity|].
  change (run env (ev :: evs) p) with (run env evs (step env p ev)).
  destruct ev as [text| |i o]; [|discriminate|]; cbn [clicks] in H; rewrite (IH _ H).
  - apply typed_sends_none.
  - apply settle_sends_none.
Qed.

Lemma reachable_pending_suffix p :
  reachable env p -> exists done, sent p = done ++ pending p.
Proof.
  induction 1 as [|p ev Hr [done IH]]; [now exists []|].
  pose proof (reachable_consistent env p Hr) as [_ Hshape].
  destruct ev as [text| |i o]; cbn [step].
  - now exists done.
  - destruct (fetch_button_disabled (view (ui p))); [now exists done|].
    exists done. cbn [fetchWeather_begin sent pending]. rewrite IH.
    now rewrite app_assoc.
  - destruct (pending p) as [|rq [|rq' rest]] eqn:Hp; [| |contradiction].
    + destruct i; cbn [nth_error]; exists done; now rewrite Hp in *.
    + destruct i as [|i]; cbn [nth_error].
      * exists (sent p). cbn [sent pending firstn skipn app]. now rewrite app_nil_r.
      * destruct i; cbn [nth_error]; exists done; now rewrite Hp in *.
Qed.

End Run.

End ViewFacts.

(** ** The thrown value, typed and untyped *)

Module AnyFacts.
Import Js App Any.

Lemma or_value_truthy a b :
  truthy_value b = true -> truthy_value (or_value a b) = true.
Proof. intros Hb. unfold or_value. now destruct (truthy_value a) eqn:Ha. Qed.

Lemma error_value_truthy e : truthy_value (error_value e) = true.
Proof. unfold error_value. now repeat apply or_value_truthy. Qed.

Lemma endpoint_error_of_thrown t :
  endpoint_error_value (of_thrown t) = of_text (endpoint_error t).
Proof.
  destruct t as [[resp msg]|]; [|reflexivity].
  destruct resp as [[d]|]; [|reflexivity].
  destruct d as [[err]|]; reflexivity.
Qed.

Lemma message_of_thrown t :
  message_value (of_thrown t) = of_text (transport_message t).
Proof. destruct t as [[resp msg]|]; reflexivity. Qed.

Lemma or_value_of_text o b :
  or_value (of_text o) (VString b) = VString (or_else o b).
Proof.
  destruct o as [s|]; [|reflexivity].
  unfold or_value. simpl. now destruct (truthy s).
Qed.

(** On the typed rejections the untyped line 48 computes the string
    [error_text]. *)
Lemma error_value_of_thrown t :
  error_value (of_thrown t) = VString (error_text t).
Proof.
  unfold error_value, error_text.
  rewrite endpoint_error_of_thrown, message_of_thrown.
  now rewrite !or_value_of_text.
Qed.

End AnyFacts.

(** ** Further behaviour of the form *)

Module FormBehaviour.
Import Js Url Dom App Observe Sample Scenario.
Import JsFacts UrlFacts AppFacts PageFacts LineFacts ViewFacts.
Import Any Journey AnyFacts.

(** X1: every element of [coordsList] is a non-empty string that
    [trim] leaves unchanged and that holds no line break. *)
Theorem coordsList_elements_plain (text : jsstring) :
  Forall (fun c => c <> [] /\ trim c = c /\ no_break c) (coordsList text).
Proof. exact (coordsList_plain text). Qed.

(** X2: [coordsList] is empty exactly when the text holds nothing but
    white space and line terminators (the empty text included). *)
Theorem coordsList_empty_iff_blank (text : jsstring) :
  coordsList text = [] <-> blank text.
Proof. apply coordsList_blank_iff. Qed.

Lemma coordsList_empty_iff_blank_witness : coordsList blank_text = [].
Proof.
  apply (proj2 (coordsList_empty_iff_blank blank_text)).
  repeat constructor.
Defined.

(** X3: a blank text does not stop a fetch: in a reachable page that is
    not loading, a click sends one request whose query is the provider
    alone, with no [coords] parameter. *)
Theorem blank_text_still_fetches (env : option jsstring) (p : Page) :
  reachable env p ->
  loading (ui p) = false ->
  blank (coordsText (ui p)) ->
  sent (step env p Click)
  = sent p ++ [Get (BACKEND_BASE env ++ lit "/api/weather?provider=openmeteo")].
Proof.
  intros Hr Hl Hb.
  destruct (click_sends_one env p) as [-> _];
    [now rewrite button_disabled_loading|].
  destruct (reachable_consistent env p Hr) as [Hprov _].
  unfold fetch_url. rewrite fetch_query_eq, Hprov.
  apply coordsList_blank_iff in Hb. rewrite Hb.
  reflexivity.
Qed.

Lemma blank_text_still_fetches_witness :
  sent (step None blank_page Click)
  = [Get (lit "http://127.0.0.1:8010/api/weather?provider=openmeteo")].
Proof.
  apply (blank_text_still_fetches None blank_page).
  - apply reach_step, reach_start.
  - reflexivity.
  - repeat constructor.
Defined.

(** X4: a line break, LF or CR, cuts the text into two texts whose
    coordinates are listed one after the other; a text without a line
    break gives its trimmed text, or nothing when that is empty. *)
Theorem line_break_splits_coordinates :
  (forall a c b, is_break c = true ->
     coordsList (a ++ c :: b) = coordsList a ++ coordsList b)
  /\ (forall l, no_break l ->
        coordsList l = if truthy (trim l) then [trim l] else []).
Proof.
  split.
  - intros a c b Hc. unfold coordsList, split_breaks.
    rewrite (split_when_cut is_break a c b Hc).
    now rewrite map_app, filter_app.
  - intros l Hl. unfold coordsList, split_breaks.
    now rewrite (split_when_clean is_break l Hl).
Qed.

Lemma line_break_splits_coordinates_witness :
  coordsList crlf_text = [lit "37.7749,-122.4194"; lit "40.7128,-74.0060"].
Proof.
  destruct line_break_splits_coordinates as [Hcut Hline].
  change (coordsList crlf_text)
    with (coordsList (lit "37.7749,-122.4194"
                        ++ 0x0D :: ([] ++ 0x0A :: lit " 40.7128,-74.0060 "))).
  rewrite Hcut by reflexivity. rewrite Hcut by reflexivity.
  rewrite !Hline by repeat constructor.
  reflexivity.
Defined.

(** X5: writing the listed coordinates back one per line and listing
    them again gives the same list. *)
Theorem coordsList_join_round_trip (text : jsstring) :
  coordsList (join_lf (coordsList text)) = coordsList text.
Proof.
  unfold coordsList at 1. apply split_trim_filter_join. apply coordsList_plain.
Qed.

(** X6: whatever value is thrown (primitives and plain objects,
    nothing assumed of its shape), the value line 48 hands to
    [setError] is truthy: the endpoint error when that is truthy, else
    the message when that is truthy, else the string 'Request failed'.
    When the thrown value is a typed rejection (endpoint error and
    message are strings or absent), the value is the non-empty string
    [error_text] and its 'Error: ' line is rendered. *)
Theorem stored_error_is_truthy (e : value) :
  truthy_value (error_value e) = true
  /\ (truthy_value (endpoint_error_value e) = true ->
      error_value e = endpoint_error_value e)
  /\ (truthy_value (endpoint_error_value e) = false ->
      truthy_value (message_value e) = true ->
      error_value e = message_value e)
  /\ (truthy_value (endpoint_error_value e) = false ->
      truthy_value (message_value e) = false ->
      error_value e = VString (lit "Request failed"))
  /\ (forall t, e = of_thrown t ->
        error_value e = VString (error_text t)
        /\ error_text t <> []
        /\ forall st, In (error_line (error_text t))
                         (children_of (view (fetchWeather_resume (Rejected t) st)))).
Proof.
  split; [apply error_value_truthy|].
  split; [intros H; unfold error_value, or_value; now rewrite H|].
  split; [intros H1 H2; unfold error_value, or_value; now rewrite H1, H2|].
  split; [intros H1 H2; unfold error_value, or_value; now rewrite H1, H2|].
  intros t ->. split; [apply error_value_of_thrown|].
  pose proof (error_text_truthy t) as Ht.
  split; [now destruct (error_text t)|].
  intros st. unfold view. cbn [children_of].
  change (error (fetchWeather_resume (Rejected t) st)) with (Some (error_text t)).
  rewrite (banner_of_truthy _ Ht). right. right. now left.
Qed.

Lemma stored_error_is_truthy_witness :
  error_value object_error = VObject [("code"%string, VNumber 400%float)]
  /\ error_value thrown_zero = VString (lit "Request failed")
  /\ error_value (of_thrown bad_request) = VString (lit "Invalid coords").
Proof.
  split; [|split].
  - apply (proj1 (proj2 (stored_error_is_truthy object_error))). reflexivity.
  - apply (proj1 (proj2 (proj2 (proj2 (stored_error_is_truthy thrown_zero)))));
      reflexivity.
  - apply (proj2 (proj2 (proj2 (proj2 (stored_error_is_truthy (of_thrown bad_request)))))
             bad_request eq_refl).
Defined.

(** X7: as long as every rejection is a typed one (its endpoint error
    and its message are strings or absent, so that the [error] cell
    holds what its declared type [string | null] says), an error that
    is set in a page the form reaches is a non-empty text and its
    error line is among the children of the view. *)
Theorem error_line_shown_when_set (env : option jsstring) (p : Page) (e : jsstring) :
  reachable env p ->
  error (ui p) = Some e ->
  e <> [] /\ In (error_line e) (children_of (view (ui p))).
Proof.
  intros Hr He. pose proof (reachable_error_truthy env p Hr e He) as Ht.
  split; [now destruct e|].
  unfold view. cbn [children_of]. rewrite He, (banner_of_truthy e Ht).
  right. right. now left.
Qed.

Lemma error_line_shown_when_set_witness :
  In (error_line (lit "Network Error"))
     (children_of (view (ui (run None [Click; Settle 0 (Rejected network_error)] start)))).
Proof.
  apply (error_line_shown_when_set None
           (run None [Click; Settle 0 (Rejected network_error)] start)
           (lit "Network Error")).
  - apply run_reachable, reach_start.
  - reflexivity.
Defined.

(** X8: settling the pending request of a reachable page shows one
    outcome only: with a response, the readings are the response and no
    error is set; with a failure, the error text is set and no table is
    rendered.  Either way [loading] is off. *)
Theorem settled_fetch_shows_one_outcome (env : option jsstring) (p : Page) (i : nat) :
  reachable env p ->
  nth_error (pending p) i <> None ->
  (forall resp_data,
     readings (ui (step env p (Settle i (Resolved resp_data)))) = Some resp_data
     /\ error (ui (step env p (Settle i (Resolved resp_data)))) = None
     /\ loading (ui (step env p (Settle i (Resolved resp_data)))) = false)
  /\ (forall e,
        error (ui (step env p (Settle i (Rejected e)))) = Some (error_text e)
        /\ readings (ui (step env p (Settle i (Rejected e)))) = None
        /\ descendants "table" (view (ui (step env p (Settle i (Rejected e))))) = []
        /\ loading (ui (step env p (Settle i (Rejected e)))) = false).
Proof.
  intros Hr Hi. destruct (reachable_consistent env p Hr) as [_ Hshape].
  destruct (pending p) as [|rq [|rq' rest]] eqn:Hp; [| |contradiction].
  - now destruct i.
  - destruct Hshape as (_ & He & Hrd).
    destruct i as [|i]; [|now destruct i].
    split.
    + intros d. cbn [step]. rewrite Hp. cbn [nth_error ui]. now repeat split.
    + intros e. cbn [step]. rewrite Hp. cbn [nth_error ui].
      split; [reflexivity|]. split; [exact Hrd|]. split; [|reflexivity].
      now apply no_table_without_readings.
Qed.

Lemma settled_fetch_shows_one_outcome_witness :
  error (ui (step None (step None start Click) (Settle 0 (Resolved [san_francisco]))))
  = None.
Proof.
  destruct (settled_fetch_shows_one_outcome None (step None start Click) 0%nat)
    as [Hok _].
  - apply reach_step, reach_start.
  - discriminate.
  - apply (Hok [san_francisco]).
Defined.

(** X9: while a reachable page is loading, neither a table nor an
    error line is rendered and the button, disabled, reads
    "Fetching..." (with the ellipsis character); when it is not
    loading, the button is enabled and reads "Fetch Weather". *)
Theorem nothing_shown_while_loading (env : option jsstring) (p : Page) :
  reachable env p ->
  (loading (ui p) = true ->
     descendants "table" (view (ui p)) = []
     /\ error_banner (error (ui p)) = Nothing
     /\ fetch_button_disabled (view (ui p)) = true
     /\ button_label (view (ui p)) = [Text (lit "Fetching" ++ [0x2026])])
  /\ (loading (ui p) = false ->
        fetch_button_disabled (view (ui p)) = false
        /\ button_label (view (ui p)) = [Text (lit "Fetch Weather")]).
Proof.
  intros Hr. rewrite button_label_eq, button_disabled_loading.
  destruct (reachable_consistent env p Hr) as [_ Hshape].
  split; intros Hl; rewrite Hl; [|now split].
  destruct (pending p) as [|rq [|rq' rest]]; [| |contradiction].
  - destruct Hshape as [Hl' _]. congruence.
  - destruct Hshape as (_ & He & Hrd).
    split; [now apply no_table_without_readings|].
    rewrite He. now repeat split.
Qed.

Lemma nothing_shown_while_loading_witness :
  descendants "table"
    (view (ui (run None [Click; Settle 0 (Resolved [san_francisco]); Click] start)))
  = [].
Proof.
  apply (proj1 (nothing_shown_while_loading None
                  (run None [Click; Settle 0 (Resolved [san_francisco]); Click] start)
                  (run_reachable None _ start (reach_start None)))).
  reflexivity.
Defined.

(** X10: typing changes the text and nothing else.  The textarea shows
    the typed text; the rows, the error line, the button and the
    requests sent and pending are what they were; and typing before or
    after a request settles leads to the same page. *)
Theorem typing_keeps_results (env : option jsstring) (p : Page) (text : jsstring) :
  textarea_values (view (ui (step env p (Typed text)))) = [text]
  /\ body_rows (view (ui (step env p (Typed text)))) = body_rows (view (ui p))
  /\ error_banner (error (ui (step env p (Typed text)))) = error_banner (error (ui p))
  /\ fetch_button_disabled (view (ui (step env p (Typed text))))
     = fetch_button_disabled (view (ui p))
  /\ pending (step env p (Typed text)) = pending p
  /\ sent (step env p (Typed text)) = sent p
  /\ (forall i o,
        step env (step env p (Typed text)) (Settle i o)
        = step env (step env p (Settle i o)) (Typed text)).
Proof.
  split; [apply textarea_values_eq|].
  split; [now rewrite !body_rows_by_readings|].
  split; [reflexivity|].
  split; [now rewrite !button_disabled_loading|].
  split; [reflexivity|]. split; [reflexivity|].
  intros i o. cbn [step pending].
  destruct (nth_error (pending p) i); [|reflexivity].
  now destruct o.
Qed.

(** X11: requests go out on clicks only.  Along any sequence of events
    the form sends at most one request per click in it, and a sequence
    without a click, however many answers and failures it holds, sends
    none: nothing is fetched on load and nothing is retried. *)
Theorem requests_only_on_click (env : option jsstring) (evs : list Event) (p : Page) :
  (List.length (sent (run env evs p)) <= List.length (sent p) + clicks evs)%nat
  /\ (clicks evs = 0%nat -> sent (run env evs p) = sent p).
Proof. split; [apply run_sent_bound | apply run_without_click]. Qed.

Lemma requests_only_on_click_witness :
  sent (run None [Typed blank_text; Settle 0 (Rejected bare_failure)] start) = []
  /\ (List.length (sent (run None session start)) <= 2)%nat.
Proof.
  split.
  - apply (proj2 (requests_only_on_click None
                    [Typed blank_text; Settle 0 (Rejected bare_failure)] start)).
    reflexivity.
  - apply (proj1 (requests_only_on_click None session start)).
Defined.

(** X12: whatever the text holds, the query string of the request is
    written with ASCII letters, digits and [* - . _ + % = &] only: no
    space, line break, [#] or [?] and nothing outside ASCII reaches
    the URL unescaped. *)
Theorem query_string_is_safe (st : State) :
  well_formed (provider st) ->
  well_formed (coordsText st) ->
  Forall (fun c => query_safe c = true) (toString (fetch_params st)).
Proof.
  intros Hp Ht. rewrite fetch_query_eq.
  apply Forall_app. split; [repeat constructor|].
  apply Forall_app. split; [now apply encode_component_safe|].
  apply Forall_flat_map.
  eapply Forall_impl; [|apply well_formed_coordsList, Ht].
  intros c Hc. apply Forall_app. split; [repeat constructor|].
  now apply encode_component_safe.
Qed.

Lemma query_string_is_safe_witness :
  Forall (fun c => query_safe c = true) (toString (fetch_params (ui malformed_page))).
Proof.
  apply (query_string_is_safe (ui malformed_page));
    apply ascii_only_well_formed; repeat constructor.
Defined.

(** X13: the rows of the table carry the keys 0, 1, ..., n-1 in order,
    n the number of readings of the response, so no two rows share a
    key. *)
Theorem row_keys_are_indices (st : State) (resp_data : list Reading.t) :
  row_keys (view (fetchWeather_resume (Resolved resp_data) st))
  = seq 0 (List.length resp_data)
  /\ NoDup (row_keys (view (fetchWeather_resume (Resolved resp_data) st))).
Proof.
  assert (E : row_keys (view (fetchWeather_resume (Resolved resp_data) st))
              = seq 0 (List.length resp_data)).
  { unfold row_keys.
    rewrite (body_rows_of_table (fetchWeather_resume (Resolved resp_data) st)
               resp_data eq_refl).
    apply keys_of_rows. }
  split; [exact E|]. rewrite E. apply seq_NoDup.
Qed.

(** X14: in every page the form reaches, the pending requests are the
    last ones sent: the record of sent requests ends with them. *)
Theorem pending_requests_are_latest_sent (env : option jsstring) (p : Page) :
  reachable env p -> exists done, sent p = done ++ pending p.
Proof. apply reachable_pending_suffix. Qed.

Lemma pending_requests_are_latest_sent_witness :
  pending (run None [Click; Settle 0 (Rejected network_error);
                     Typed (lit "51.5074,-0.1278"); Click] start)
  = [Get (lit "http://127.0.0.1:8010/api/weather?provider=openmeteo&coords=51.5074%2C-0.1278")]
  /\ exists done,
       sent (run None [Click; Settle 0 (Rejected network_error);
                       Typed (lit "51.5074,-0.1278"); Click] start)
       = done ++ pending (run None [Click; Settle 0 (Rejected network_error);
                                    Typed (lit "51.5074,-0.1278"); Click] start).
Proof.
  split; [reflexivity|].
  apply (pending_requests_are_latest_sent None
           (run None [Click; Settle 0 (Rejected network_error);
                      Typed (lit "51.5074,-0.1278"); Click] start)).
  apply run_reachable, reach_start.
Defined.

End FormBehaviour.
